(** * Project Chimera front end: task store, chat store and event registry

    A shallow embedding of the Redux slices ([tasksSlice.ts], [chatSlice.ts]),
    of the task page ([Tasks.tsx]) and of the client-side event registry
    ([WebSocketService]), with the properties the specification states
    about tasks, task updates and event delivery. *)

From Stdlib Require Import ZArith Lia ListDec.
From stdpp Require Import base strings list gmap.

(** ** Helpers shared by the slices *)

(** [Array.prototype.findIndex]: the first index whose element satisfies
    the predicate; [None] stands for -1. *)
Fixpoint findIndex {A : Type} (p : A → bool) (l : list A) : option nat :=
  match l with
  | [] => None
  | x :: l' => if p x then Some 0 else S <$> findIndex p l'
  end.

(** [a || b] on a string that may be undefined: the empty string is falsy. *)
Definition or_default (message : option string) (fallback : string) : string :=
  match message with
  | Some m => if String.eqb m "" then fallback else m
  | None => fallback
  end.

(** What [await fetch(..)] followed by [response.json()] can give: the
    request itself is rejected, or a response arrives whose body parses
    to a value or fails to parse. The server is not part of the client;
    its answer is an input of every thunk. *)
Inductive Body (T : Type) : Type :=
| Parsed (value : T)
| Unparsable (message : string).
Arguments Parsed {T} value.
Arguments Unparsable {T} message.

Inductive FetchResult (T : Type) : Type :=
| NetworkError (message : string)
| Response (ok : bool) (json : Body T).
Arguments NetworkError {T} message.
Arguments Response {T} ok json.

(** The settled result of a [createAsyncThunk] payload creator:
    [fulfilled] with the returned payload, or [rejected] with the message
    of the error that was thrown. *)
Inductive ThunkResult (T : Type) : Type :=
| Fulfilled (payload : T)
| Rejected (message : string).
Arguments Fulfilled {T} payload.
Arguments Rejected {T} message.

(** A value of type [any]: the cases this development distinguishes. *)
Inductive any : Type :=
| null
| text (s : string)
| number (z : Z)
| boolean (b : bool).

(** * The task slice ([store/tasksSlice.ts]) and the task page ([pages/Tasks/Tasks.tsx]) *)

Module Tasks.

(** [priority: 'low' | 'medium' | 'high'] *)
Inductive Priority : Type := low | medium | high.

(** [status: 'pending' | 'running' | 'completed' | 'failed' | 'cancelled'] *)
Inductive TaskStatus : Type := pending | running | completed | failed | cancelled.

(** The string literal each member of the union stands for. *)
Definition status_name (s : TaskStatus) : string :=
  match s with
  | pending => "pending"
  | running => "running"
  | completed => "completed"
  | failed => "failed"
  | cancelled => "cancelled"
  end.

Global Instance TaskStatus_eq_dec : EqDecision TaskStatus.
Proof. solve_decision. Defined.

Global Instance Priority_eq_dec : EqDecision Priority.
Proof. solve_decision. Defined.

(** [export interface Task] *)
Record Task : Type := mkTask {
  id : string;
  title : string;
  description : string;
  type : string;
  priority : Priority;
  status : TaskStatus;
  agent_id : option string;          (* string | null *)
  created_at : string;
  updated_at : string;
  user_id : string;
  result : any;
  dependencies : list string;
}.

Record Filters : Type := mkFilters {
  f_status : string;
  f_priority : string;
  f_type : string;
}.

(** [Partial<TasksState['filters']>] *)
Record PartialFilters : Type := mkPartialFilters {
  pf_status : option string;
  pf_priority : option string;
  pf_type : option string;
}.

(** [export interface TasksState] *)
Record TasksState : Type := mkTasksState {
  tasks : list Task;
  currentTask : option Task;
  loading : bool;
  error : option string;
  availableTypes : list string;
  filters : Filters;
}.

Definition initialState : TasksState :=
  {| tasks := [];
     currentTask := None;
     loading := false;
     error := None;
     availableTypes := [];
     filters := {| f_status := "all"; f_priority := "all"; f_type := "all" |} |}.

(** The value of the form of the task dialog ([formData] in [Tasks.tsx]);
    it is also the [updates] argument of [updateTask] and the argument of
    [createTask]. *)
Record FormData : Type := mkFormData {
  fd_title : string;
  fd_description : string;
  fd_type : string;
  fd_priority : Priority;
  fd_status : TaskStatus;
  fd_agent_id : string;
  fd_dependencies : list string;
}.

(** *** Async thunks

    Each payload creator awaits one [fetch]; the answer of the server is
    the [FetchResult] argument. *)

Definition fetchTasks (r : FetchResult (list Task)) : ThunkResult (list Task) :=
  match r with
  | NetworkError m => Rejected m
  | Response ok json =>
      if negb ok then Rejected "Failed to fetch tasks"
      else match json with Parsed v => Fulfilled v | Unparsable m => Rejected m end
  end.

Definition createTask (taskData : FormData) (r : FetchResult Task) : ThunkResult Task :=
  match r with
  | NetworkError m => Rejected m
  | Response ok json =>
      if negb ok then Rejected "Failed to create task"
      else match json with Parsed v => Fulfilled v | Unparsable m => Rejected m end
  end.

Definition updateTask (id : string) (updates : FormData) (r : FetchResult Task)
  : ThunkResult Task :=
  match r with
  | NetworkError m => Rejected m
  | Response ok json =>
      if negb ok then Rejected "Failed to update task"
      else match json with Parsed v => Fulfilled v | Unparsable m => Rejected m end
  end.

Definition executeTask (id : string) (r : FetchResult Task) : ThunkResult Task :=
  match r with
  | NetworkError m => Rejected m
  | Response ok json =>
      if negb ok then Rejected "Failed to execute task"
      else match json with Parsed v => Fulfilled v | Unparsable m => Rejected m end
  end.

(** [deleteTask] does not read the body: it returns its argument. *)
Definition deleteTask (id : string) (r : FetchResult unit) : ThunkResult string :=
  match r with
  | NetworkError m => Rejected m
  | Response ok _ => if negb ok then Rejected "Failed to delete task" else Fulfilled id
  end.

(** *** The reducer *)

Inductive Action : Type :=
| setCurrentTask (payload : option Task)
| setFilters (payload : PartialFilters)
| clearError
| fetchTasks_pending
| fetchTasks_fulfilled (payload : list Task)
| fetchTasks_rejected (message : option string)
| createTask_pending
| createTask_fulfilled (payload : Task)
| createTask_rejected (message : option string)
| updateTask_fulfilled (payload : Task)
| executeTask_fulfilled (payload : Task)
| deleteTask_fulfilled (payload : string)
| fetchAvailableTaskTypes_fulfilled (payload : list string)
| unhandled (action_type : string).
    (* every action without a case, e.g. tasks/updateTask/rejected *)

Definition set_tasks (st : TasksState) (ts : list Task) : TasksState :=
  {| tasks := ts; currentTask := currentTask st; loading := loading st;
     error := error st; availableTypes := availableTypes st; filters := filters st |}.

Definition set_loading_error (st : TasksState) (l : bool) (e : option string) : TasksState :=
  {| tasks := tasks st; currentTask := currentTask st; loading := l;
     error := e; availableTypes := availableTypes st; filters := filters st |}.

Definition set_loading (st : TasksState) (l : bool) : TasksState :=
  set_loading_error st l (error st).

(** [{ ...state.filters, ...action.payload }] *)
Definition merge_filters (f : Filters) (p : PartialFilters) : Filters :=
  {| f_status := default (f_status f) (pf_status p);
     f_priority := default (f_priority f) (pf_priority p);
     f_type := default (f_type f) (pf_type p) |}.

(** [const index = state.tasks.findIndex(task => task.id === action.payload.id);
     if (index !== -1) state.tasks[index] = action.payload;] *)
Definition replace_task (ts : list Task) (payload : Task) : list Task :=
  match findIndex (λ task, String.eqb (id task) (id payload)) ts with
  | Some index => <[index := payload]> ts
  | None => ts
  end.

Definition reducer (st : TasksState) (a : Action) : TasksState :=
  match a with
  | setCurrentTask p =>
      {| tasks := tasks st; currentTask := p; loading := loading st;
         error := error st; availableTypes := availableTypes st; filters := filters st |}
  | setFilters p =>
      {| tasks := tasks st; currentTask := currentTask st; loading := loading st;
         error := error st; availableTypes := availableTypes st;
         filters := merge_filters (filters st) p |}
  | clearError => set_loading_error st (loading st) None
  | fetchTasks_pending => set_loading_error st true None
  | fetchTasks_fulfilled p => set_tasks (set_loading st false) p
  | fetchTasks_rejected m =>
      set_loading_error st false (Some (or_default m "Failed to fetch tasks"))
  | createTask_pending => set_loading_error st true None
  | createTask_fulfilled p => set_tasks (set_loading st false) (tasks st ++ [p])
  | createTask_rejected m =>
      set_loading_error st false (Some (or_default m "Failed to create task"))
  | updateTask_fulfilled p => set_tasks st (replace_task (tasks st) p)
  | executeTask_fulfilled p => set_tasks st (replace_task (tasks st) p)
  | deleteTask_fulfilled p =>
      set_tasks st (filter (λ task, id task ≠ p) (tasks st))
  | fetchAvailableTaskTypes_fulfilled p =>
      {| tasks := tasks st; currentTask := currentTask st; loading := loading st;
         error := error st; availableTypes := p; filters := filters st |}
  | unhandled _ => st
  end.

(** Dispatching a thunk: the [pending] action, then the action of the
    settled result. *)
Definition dispatch_createTask (st : TasksState) (taskData : FormData)
    (r : FetchResult Task) : TasksState :=
  let st1 := reducer st createTask_pending in
  match createTask taskData r with
  | Fulfilled p => reducer st1 (createTask_fulfilled p)
  | Rejected m => reducer st1 (createTask_rejected (Some m))
  end.

Definition dispatch_updateTask (st : TasksState) (id : string) (updates : FormData)
    (r : FetchResult Task) : TasksState :=
  let st1 := reducer st (unhandled "tasks/updateTask/pending") in
  match updateTask id updates r with
  | Fulfilled p => reducer st1 (updateTask_fulfilled p)
  | Rejected m => reducer st1 (unhandled "tasks/updateTask/rejected")
  end.

Definition dispatch_executeTask (st : TasksState) (id : string)
    (r : FetchResult Task) : TasksState :=
  let st1 := reducer st (unhandled "tasks/executeTask/pending") in
  match executeTask id r with
  | Fulfilled p => reducer st1 (executeTask_fulfilled p)
  | Rejected m => reducer st1 (unhandled "tasks/executeTask/rejected")
  end.

Definition dispatch_deleteTask (st : TasksState) (id : string)
    (r : FetchResult unit) : TasksState :=
  let st1 := reducer st (unhandled "tasks/deleteTask/pending") in
  match deleteTask id r with
  | Fulfilled p => reducer st1 (deleteTask_fulfilled p)
  | Rejected m => reducer st1 (unhandled "tasks/deleteTask/rejected")
  end.

(** *** The task page ([Tasks.tsx]) *)


Definition emptyForm : FormData :=
  {| fd_title := ""; fd_description := ""; fd_type := ""; fd_priority := medium;
     fd_status := pending; fd_agent_id := ""; fd_dependencies := [] |}.








Definition handleExecuteTask (st : TasksState) (taskId : string) (r : FetchResult Task)
  : TasksState :=
  dispatch_executeTask st taskId r.

(** [renderTaskActions]: the execute button is rendered for pending tasks
    only; the edit and delete buttons are disabled for running tasks. *)
Definition execute_shown (task : Task) : bool := bool_decide (status task = pending).
Definition edit_disabled (task : Task) : bool := bool_decide (status task = running).
Definition delete_disabled (task : Task) : bool := bool_decide (status task = running).

(** A click reaches the handler only when the button is there and enabled. *)
Definition click_execute (st : TasksState) (task : Task) (r : FetchResult Task)
  : TasksState :=
  if execute_shown task then handleExecuteTask st (id task) r else st.



(** *** The statuses and transitions the specification names *)

(** The seven status names of the specification's data model. *)
Definition spec_status_names : list string :=
  ["pending"; "decomposed"; "ready"; "running"; "completed"; "failed"; "cancelled"].

(** The edges the specification lists: pending→decomposed, pending→ready,
    decomposed→ready, ready→running, running→completed, running→failed,
    {pending, ready, running}→cancelled. *)
Definition spec_edges : list (string * string) :=
  [("pending", "decomposed"); ("pending", "ready"); ("decomposed", "ready");
   ("ready", "running"); ("running", "completed"); ("running", "failed");
   ("pending", "cancelled"); ("ready", "cancelled"); ("running", "cancelled")].

Definition spec_edge (a b : string) : bool :=
  existsb (λ e, String.eqb (fst e) a && String.eqb (snd e) b) spec_edges.

(** Reachability along one or more listed edges, in at most [n] steps. *)
Fixpoint spec_reach (n : nat) (a b : string) : bool :=
  match n with
  | 0 => false
  | S n' =>
      spec_edge a b
      || existsb (λ c, spec_edge a c && spec_reach n' c b) spec_status_names
  end.

(** Seven statuses: a path without repetition has at most six edges. *)
Definition spec_reachable (a b : string) : bool := spec_reach 7 a b.

(** A task has a terminal status. *)
Definition terminal (s : TaskStatus) : bool :=
  match s with
  | completed | failed | cancelled => true
  | pending | running => false
  end.

(** A running task names an agent. *)
Definition running_has_agent (t : Task) : bool :=
  match status t with
  | running => match agent_id t with Some _ => true | None => false end
  | _ => true
  end.

(** The number of agents assigned to a task. *)
Definition assigned_agents (t : Task) : nat :=
  match agent_id t with Some _ => 1 | None => 0 end.

(** The tasks an action carries into the store. *)
Definition action_tasks (a : Action) : list Task :=
  match a with
  | setCurrentTask (Some t) => [t]
  | fetchTasks_fulfilled ts => ts
  | createTask_fulfilled t | updateTask_fulfilled t | executeTask_fulfilled t => [t]
  | _ => []
  end.

(** The state after a sequence of actions, starting from [initialState]. *)
Definition run (actions : list Action) : TasksState := foldl reducer initialState actions.


(** Examples used below. *)
Definition sample (i : string) (s : TaskStatus) (a : option string) : Task :=
  {| id := i; title := "report"; description := ""; type := "analysis";
     priority := medium; status := s; agent_id := a;
     created_at := "2024-01-01"; updated_at := "2024-01-01"; user_id := "u1";
     result := null; dependencies := [] |}.

Definition with_title (t : Task) (v : string) : Task :=
  {| id := id t; title := v; description := description t; type := type t;
     priority := priority t; status := status t; agent_id := agent_id t;
     created_at := created_at t; updated_at := updated_at t; user_id := user_id t;
     result := result t; dependencies := dependencies t |}.

(** *** Further parts of the slice and of the page *)

Definition dispatch_fetchTasks (st : TasksState) (r : FetchResult (list Task))
  : TasksState :=
  let st1 := reducer st fetchTasks_pending in
  match fetchTasks r with
  | Fulfilled p => reducer st1 (fetchTasks_fulfilled p)
  | Rejected m => reducer st1 (fetchTasks_rejected (Some m))
  end.

(** [getStatusColor]: a [switch] on the status string with a default. *)
Definition getStatusColor (status : string) : string :=
  if String.eqb status "pending" then "default"
  else if String.eqb status "running" then "info"
  else if String.eqb status "completed" then "success"
  else if String.eqb status "failed" then "error"
  else if String.eqb status "cancelled" then "warning"
  else "default".

Definition priority_name (p : Priority) : string :=
  match p with low => "low" | medium => "medium" | high => "high" end.

(** [getPriorityColor] *)
Definition getPriorityColor (priority : string) : string :=
  if String.eqb priority "low" then "success"
  else if String.eqb priority "medium" then "info"
  else if String.eqb priority "high" then "warning"
  else "default".


(** [tasks.find(t => t.id === i)]: the first stored task with identifier [i]. *)
Definition task_with_id (ts : list Task) (i : string) : option Task :=
  List.find (λ t, String.eqb (id t) i) ts.

End Tasks.

(** * The tasks at run time

    The types of TypeScript are erased when the program runs: every thunk
    returns [response.json()] as it is and the reducer stores it.
    [TaskWire] is the task slice on the objects that arrive, whose
    [priority] and [status] are the strings the server sent; [Tasks] above
    is the same slice on the objects the [Task] interface describes. *)

Module TaskWire.

(** A task object as [response.json()] gives it. *)
Record Task : Type := mkTask {
  id : string;
  title : string;
  description : string;
  type : string;
  priority : string;
  status : string;
  agent_id : option string;
  created_at : string;
  updated_at : string;
  user_id : string;
  result : any;
  dependencies : list string;
}.

(** [status: 'pending' | 'running' | 'completed' | 'failed' | 'cancelled']:
    the member of the union that a string is, if it is one. *)
Definition declared_status (name : string) : option Tasks.TaskStatus :=
  if String.eqb name "pending" then Some Tasks.pending
  else if String.eqb name "running" then Some Tasks.running
  else if String.eqb name "completed" then Some Tasks.completed
  else if String.eqb name "failed" then Some Tasks.failed
  else if String.eqb name "cancelled" then Some Tasks.cancelled
  else None.

(** [priority: 'low' | 'medium' | 'high'] *)
Definition declared_priority (name : string) : option Tasks.Priority :=
  if String.eqb name "low" then Some Tasks.low
  else if String.eqb name "medium" then Some Tasks.medium
  else if String.eqb name "high" then Some Tasks.high
  else None.

(** The object that a task of the interface is at run time. *)
Definition untyped (t : Tasks.Task) : Task :=
  {| id := Tasks.id t; title := Tasks.title t; description := Tasks.description t;
     type := Tasks.type t; priority := Tasks.priority_name (Tasks.priority t);
     status := Tasks.status_name (Tasks.status t); agent_id := Tasks.agent_id t;
     created_at := Tasks.created_at t; updated_at := Tasks.updated_at t;
     user_id := Tasks.user_id t; result := Tasks.result t;
     dependencies := Tasks.dependencies t |}.

(** The task of the interface that an object is, if the interface
    describes it. *)
Definition typed (t : Task) : option Tasks.Task :=
  match declared_priority (priority t), declared_status (status t) with
  | Some p, Some s =>
      Some {| Tasks.id := id t; Tasks.title := title t;
              Tasks.description := description t; Tasks.type := type t;
              Tasks.priority := p; Tasks.status := s; Tasks.agent_id := agent_id t;
              Tasks.created_at := created_at t; Tasks.updated_at := updated_at t;
              Tasks.user_id := user_id t; Tasks.result := result t;
              Tasks.dependencies := dependencies t |}
  | _, _ => None
  end.

Record TasksState : Type := mkTasksState {
  tasks : list Task;
  currentTask : option Task;
  loading : bool;
  error : option string;
  availableTypes : list string;
  filters : Tasks.Filters;
}.

Definition initialState : TasksState :=
  {| tasks := [];
     currentTask := None;
     loading := false;
     error := None;
     availableTypes := [];
     filters := {| Tasks.f_status := "all"; Tasks.f_priority := "all";
                   Tasks.f_type := "all" |} |}.

(** The thunks return the parsed body without looking at it. *)
Definition fetchTasks (r : FetchResult (list Task)) : ThunkResult (list Task) :=
  match r with
  | NetworkError m => Rejected m
  | Response ok json =>
      if negb ok then Rejected "Failed to fetch tasks"
      else match json with Parsed v => Fulfilled v | Unparsable m => Rejected m end
  end.

Definition createTask (taskData : Tasks.FormData) (r : FetchResult Task)
  : ThunkResult Task :=
  match r with
  | NetworkError m => Rejected m
  | Response ok json =>
      if negb ok then Rejected "Failed to create task"
      else match json with Parsed v => Fulfilled v | Unparsable m => Rejected m end
  end.

Definition updateTask (id : string) (updates : Tasks.FormData) (r : FetchResult Task)
  : ThunkResult Task :=
  match r with
  | NetworkError m => Rejected m
  | Response ok json =>
      if negb ok then Rejected "Failed to update task"
      else match json with Parsed v => Fulfilled v | Unparsable m => Rejected m end
  end.

Definition executeTask (id : string) (r : FetchResult Task) : ThunkResult Task :=
  match r with
  | NetworkError m => Rejected m
  | Response ok json =>
      if negb ok then Rejected "Failed to execute task"
      else match json with Parsed v => Fulfilled v | Unparsable m => Rejected m end
  end.

Inductive Action : Type :=
| setCurrentTask (payload : option Task)
| setFilters (payload : Tasks.PartialFilters)
| clearError
| fetchTasks_pending
| fetchTasks_fulfilled (payload : list Task)
| fetchTasks_rejected (message : option string)
| createTask_pending
| createTask_fulfilled (payload : Task)
| createTask_rejected (message : option string)
| updateTask_fulfilled (payload : Task)
| executeTask_fulfilled (payload : Task)
| deleteTask_fulfilled (payload : string)
| fetchAvailableTaskTypes_fulfilled (payload : list string)
| unhandled (action_type : string).

Definition set_tasks (st : TasksState) (ts : list Task) : TasksState :=
  {| tasks := ts; currentTask := currentTask st; loading := loading st;
     error := error st; availableTypes := availableTypes st; filters := filters st |}.

Definition set_loading_error (st : TasksState) (l : bool) (e : option string) : TasksState :=
  {| tasks := tasks st; currentTask := currentTask st; loading := l;
     error := e; availableTypes := availableTypes st; filters := filters st |}.

(** [const index = state.tasks.findIndex(task => task.id === action.payload.id);
     if (index !== -1) state.tasks[index] = action.payload;] *)
Definition replace_task (ts : list Task) (payload : Task) : list Task :=
  match findIndex (λ task, String.eqb (id task) (id payload)) ts with
  | Some index => <[index := payload]> ts
  | None => ts
  end.

Definition reducer (st : TasksState) (a : Action) : TasksState :=
  match a with
  | setCurrentTask p =>
      {| tasks := tasks st; currentTask := p; loading := loading st;
         error := error st; availableTypes := availableTypes st; filters := filters st |}
  | setFilters p =>
      {| tasks := tasks st; currentTask := currentTask st; loading := loading st;
         error := error st; availableTypes := availableTypes st;
         filters := Tasks.merge_filters (filters st) p |}
  | clearError => set_loading_error st (loading st) None
  | fetchTasks_pending => set_loading_error st true None
  | fetchTasks_fulfilled p => set_tasks (set_loading_error st false (error st)) p
  | fetchTasks_rejected m =>
      set_loading_error st false (Some (or_default m "Failed to fetch tasks"))
  | createTask_pending => set_loading_error st true None
  | createTask_fulfilled p =>
      set_tasks (set_loading_error st false (error st)) (tasks st ++ [p])
  | createTask_rejected m =>
      set_loading_error st false (Some (or_default m "Failed to create task"))
  | updateTask_fulfilled p => set_tasks st (replace_task (tasks st) p)
  | executeTask_fulfilled p => set_tasks st (replace_task (tasks st) p)
  | deleteTask_fulfilled p =>
      set_tasks st (filter (λ task, id task ≠ p) (tasks st))
  | fetchAvailableTaskTypes_fulfilled p =>
      {| tasks := tasks st; currentTask := currentTask st; loading := loading st;
         error := error st; availableTypes := p; filters := filters st |}
  | unhandled _ => st
  end.

(** Dispatching a thunk: the [pending] action, then the action of the
    settled result. *)
Definition dispatch_fetchTasks (st : TasksState) (r : FetchResult (list Task))
  : TasksState :=
  let st1 := reducer st fetchTasks_pending in
  match fetchTasks r with
  | Fulfilled p => reducer st1 (fetchTasks_fulfilled p)
  | Rejected m => reducer st1 (fetchTasks_rejected (Some m))
  end.

Definition dispatch_createTask (st : TasksState) (taskData : Tasks.FormData)
    (r : FetchResult Task) : TasksState :=
  let st1 := reducer st createTask_pending in
  match createTask taskData r with
  | Fulfilled p => reducer st1 (createTask_fulfilled p)
  | Rejected m => reducer st1 (createTask_rejected (Some m))
  end.

Definition dispatch_updateTask (st : TasksState) (id : string)
    (updates : Tasks.FormData) (r : FetchResult Task) : TasksState :=
  let st1 := reducer st (unhandled "tasks/updateTask/pending") in
  match updateTask id updates r with
  | Fulfilled p => reducer st1 (updateTask_fulfilled p)
  | Rejected m => reducer st1 (unhandled "tasks/updateTask/rejected")
  end.

Definition dispatch_executeTask (st : TasksState) (id : string)
    (r : FetchResult Task) : TasksState :=
  let st1 := reducer st (unhandled "tasks/executeTask/pending") in
  match executeTask id r with
  | Fulfilled p => reducer st1 (executeTask_fulfilled p)
  | Rejected m => reducer st1 (unhandled "tasks/executeTask/rejected")
  end.

(** [renderTaskActions]: [task.status === 'pending'] shows the execute
    button, [task.status === 'running'] disables the edit and the delete
    button. *)
Definition execute_shown (task : Task) : bool := String.eqb (status task) "pending".
Definition edit_disabled (task : Task) : bool := String.eqb (status task) "running".
Definition delete_disabled (task : Task) : bool := String.eqb (status task) "running".

(** The state and the actions of [Tasks] at run time. *)
Definition untyped_state (st : Tasks.TasksState) : TasksState :=
  {| tasks := untyped <$> Tasks.tasks st;
     currentTask := untyped <$> Tasks.currentTask st;
     loading := Tasks.loading st;
     error := Tasks.error st;
     availableTypes := Tasks.availableTypes st;
     filters := Tasks.filters st |}.

Definition untyped_action (a : Tasks.Action) : Action :=
  match a with
  | Tasks.setCurrentTask p => setCurrentTask (untyped <$> p)
  | Tasks.setFilters p => setFilters p
  | Tasks.clearError => clearError
  | Tasks.fetchTasks_pending => fetchTasks_pending
  | Tasks.fetchTasks_fulfilled p => fetchTasks_fulfilled (untyped <$> p)
  | Tasks.fetchTasks_rejected m => fetchTasks_rejected m
  | Tasks.createTask_pending => createTask_pending
  | Tasks.createTask_fulfilled p => createTask_fulfilled (untyped p)
  | Tasks.createTask_rejected m => createTask_rejected m
  | Tasks.updateTask_fulfilled p => updateTask_fulfilled (untyped p)
  | Tasks.executeTask_fulfilled p => executeTask_fulfilled (untyped p)
  | Tasks.deleteTask_fulfilled p => deleteTask_fulfilled p
  | Tasks.fetchAvailableTaskTypes_fulfilled p => fetchAvailableTaskTypes_fulfilled p
  | Tasks.unhandled n => unhandled n
  end.

(** An example: a task object with the given identifier and status
    string, as a server may send it. *)
Definition received (i status : string) : Task :=
  {| id := i; title := "report"; description := ""; type := "analysis";
     priority := "medium"; status := status; agent_id := None;
     created_at := "2024-01-01"; updated_at := "2024-01-01"; user_id := "u1";
     result := null; dependencies := [] |}.

End TaskWire.

(** * The client-side event registry ([WebSocketService]) *)

Module WebSocketService.

(** A handler is a function object; [indexOf] compares handlers by
    identity, so a handler is named by a number. *)
Definition Handler : Type := nat.

(** The identity of a [Function[]] array object. The map stores
    references: [get] returns the array that [push] and [splice] change in
    place, and a running [forEach] keeps iterating over that same object. *)
Definition ArrayRef : Type := positive.

(** [private eventHandlers: Map<string, Function[]>], with the array
    objects held apart from the map that refers to them. *)
Record Service : Type := mkService {
  eventHandlers : gmap string ArrayRef;
  arrays : gmap ArrayRef (list Handler);
}.

Definition empty : Service := {| eventHandlers := ∅; arrays := ∅ |}.

(** The elements of the array object [r]. *)
Definition array_of (s : Service) (r : ArrayRef) : list Handler :=
  default [] (arrays s !! r).

(** [this.eventHandlers.get(event) || []] read as a list. *)
Definition handlers_of (s : Service) (event : string) : list Handler :=
  match eventHandlers s !! event with
  | Some r => array_of s r
  | None => []
  end.

(** [on]: [push] on the stored array, or on a new array when the event has
    none; then [set]. *)
Definition on (event : string) (handler : Handler) (s : Service) : Service :=
  match eventHandlers s !! event with
  | Some r =>
      {| eventHandlers := <[event := r]> (eventHandlers s);
         arrays := alter (λ handlers, handlers ++ [handler]) r (arrays s) |}
  | None =>
      let r := fresh (dom (arrays s)) in
      {| eventHandlers := <[event := r]> (eventHandlers s);
         arrays := <[r := [handler]]> (arrays s) |}
  end.

(** [handlers.indexOf(handler)]: the first index, [None] for -1. *)
Definition indexOf (handler : Handler) (handlers : list Handler) : option nat :=
  findIndex (λ h, Nat.eqb h handler) handlers.

(** [off]: without a handler the event is deleted from the map; with a
    handler its first occurrence is spliced out of the stored array. When
    the event has no array, [indexOf] runs on a new empty array and finds
    nothing. *)
Definition off (event : string) (handler : option Handler) (s : Service) : Service :=
  match handler with
  | None => {| eventHandlers := delete event (eventHandlers s); arrays := arrays s |}
  | Some h =>
      match eventHandlers s !! event with
      | None => s
      | Some r =>
          match indexOf h (array_of s r) with
          | Some index =>
              {| eventHandlers := <[event := r]> (eventHandlers s);
                 arrays := alter (delete index) r (arrays s) |}
          | None => s
          end
      end
  end.

(** How a call ends. *)
Inductive Completion : Type :=
| Normal
| Throw (error : string).

(** What [emit] leaves behind: the service, the handlers it invoked (in
    order, each with the way its call ended) and the lines written with
    [console.error] (event and error). *)
Record Emitted : Type := mkEmitted {
  service : Service;
  calls : list (Handler * Completion);
  console : list (string * string);
}.

(** [Array.prototype.forEach] on the array object [r], from index [k] with
    [n] indices left: the length is read once, before the first call; an
    index is visited if the array still has it when its turn comes; an
    exception of the callback ends the loop and is passed on. *)
Fixpoint forEach_from (callback : Handler → Emitted → Emitted * Completion)
    (r : ArrayRef) (k n : nat) (st : Emitted) : Emitted * Completion :=
  match n with
  | 0 => (st, Normal)
  | S n' =>
      match array_of (service st) r !! k with
      | Some h =>
          match callback h st with
          | (st', Normal) => forEach_from callback r (S k) n' st'
          | (st', Throw e) => (st', Throw e)
          end
      | None => forEach_from callback r (S k) n' st
      end
  end.

Definition forEach (callback : Handler → Emitted → Emitted * Completion)
    (r : ArrayRef) (st : Emitted) : Emitted * Completion :=
  forEach_from callback r 0 (length (array_of (service st) r)) st.

Section Handlers.

(** What the handlers do when called: a handler receives the data and may
    use the service (subscribe, unsubscribe), and returns or throws. *)
Context (behaviour : Handler → any → Service → Service * Completion).

(** The callback of [emit]:
    [try { handler(data) } catch (error) { console.error(.., error) }]. *)
Definition guarded (event : string) (data : any) (h : Handler) (st : Emitted)
  : Emitted * Completion :=
  match behaviour h data (service st) with
  | (s', Normal) =>
      ({| service := s'; calls := calls st ++ [(h, Normal)]; console := console st |},
       Normal)
  | (s', Throw error) =>
      ({| service := s'; calls := calls st ++ [(h, Throw error)];
          console := console st ++ [(event, error)] |},
       Normal)
  end.

(** The same call without the [try]: the exception leaves the callback. *)
Definition unguarded (data : any) (h : Handler) (st : Emitted) : Emitted * Completion :=
  match behaviour h data (service st) with
  | (s', c) =>
      ({| service := s'; calls := calls st ++ [(h, c)]; console := console st |}, c)
  end.

(** [emit(event, data)] *)
Definition emit (event : string) (data : any) (s : Service) : Emitted * Completion :=
  let st := {| service := s; calls := []; console := [] |} in
  match eventHandlers s !! event with
  | Some r => forEach (guarded event data) r st
  | None => (st, Normal)
  end.

End Handlers.

(** The handlers invoked, in order. *)
Definition invoked (e : Emitted * Completion) : list Handler := fst <$> calls (fst e).

(** The errors thrown by the calls, in order. *)
Definition thrown (event : string) (cs : list (Handler * Completion))
  : list (string * string) :=
  omap (λ c, match snd c with Throw error => Some (event, error) | Normal => None end) cs.



(** How many times [handler] is registered for [event]. *)
Definition registrations (s : Service) (event : string) (handler : Handler) : nat :=
  length (filter (λ h, h = handler) (handlers_of s event)).

(** Every event that has an array refers to an array that exists. *)
Definition well_formed (s : Service) : Prop :=
  ∀ event r, eventHandlers s !! event = Some r → is_Some (arrays s !! r).

(** Example behaviours: handler 1 unsubscribes itself from ["task_completed"]
    when called; handler 3 throws; the others return. *)
Definition once_behaviour (h : Handler) (data : any) (s : Service)
  : Service * Completion :=
  match h with
  | 1 => (off "task_completed" (Some 1) s, Normal)
  | _ => (s, Normal)
  end.

Definition failing_behaviour (h : Handler) (data : any) (s : Service)
  : Service * Completion :=
  match h with
  | 3 => (s, Throw "boom")
  | _ => (s, Normal)
  end.

(** Handler 1 removes all handlers of ["task_completed"] when called
    ([off] without a handler); the others return. *)
Definition clearing_behaviour (h : Handler) (data : any) (s : Service)
  : Service * Completion :=
  match h with
  | 1 => (off "task_completed" None s, Normal)
  | _ => (s, Normal)
  end.


End WebSocketService.

(** * The chat slice ([chatSlice.ts]) *)

Module Chat.

Inductive Role : Type := user | assistant.

(** [export interface ChatMessage] *)
Record ChatMessage : Type := mkChatMessage {
  m_id : string;
  content : string;
  role : Role;
  timestamp : string;
  session_id : string;
  m_agent_id : option string;
  metadata : option (list (string * any));
}.

(** [export interface ChatSession] *)
Record ChatSession : Type := mkChatSession {
  id : string;
  title : string;
  created_at : string;
  updated_at : string;
  user_id : string;
  agent_id : option string;
  s_messages : list ChatMessage;
}.

(** [export interface ChatState] *)
Record ChatState : Type := mkChatState {
  sessions : list ChatSession;
  currentSession : option ChatSession;
  messages : list ChatMessage;
  loading : bool;
  error : option string;
  isStreaming : bool;
}.

Definition initialState : ChatState :=
  {| sessions := []; currentSession := None; messages := [];
     loading := false; error := None; isStreaming := false |}.

(** The [deleteChatSession] thunk returns the identifier it was given. *)
Definition deleteChatSession (sessionId : string) (r : FetchResult unit)
  : ThunkResult string :=
  match r with
  | NetworkError m => Rejected m
  | Response ok _ =>
      if negb ok then Rejected "Failed to delete chat session" else Fulfilled sessionId
  end.

(** [state.currentSession?.id === action.payload] *)
Definition current_is (st : ChatState) (payload : string) : bool :=
  match currentSession st with
  | Some c => String.eqb (id c) payload
  | None => false
  end.

(** The [deleteChatSession.fulfilled] case of the reducer. *)
Definition deleteChatSession_fulfilled (st : ChatState) (payload : string) : ChatState :=
  let sessions' := filter (λ session, id session ≠ payload) (sessions st) in
  if current_is st payload then
    {| sessions := sessions'; currentSession := None; messages := [];
       loading := loading st; error := error st; isStreaming := isStreaming st |}
  else
    {| sessions := sessions'; currentSession := currentSession st;
       messages := messages st;
       loading := loading st; error := error st; isStreaming := isStreaming st |}.

(** *** The other cases of the reducer *)

(** [Partial<ChatMessage>]: a field is present or not; [agent_id] and
    [metadata], optional in [ChatMessage], may be present and undefined. *)
Record PartialMessage : Type := mkPartialMessage {
  p_id : option string;
  p_content : option string;
  p_role : option Role;
  p_timestamp : option string;
  p_session_id : option string;
  p_agent_id : option (option string);
  p_metadata : option (option (list (string * any)));
}.

(** [{ ...message, ...updates }] *)
Definition merge_message (m : ChatMessage) (u : PartialMessage) : ChatMessage :=
  {| m_id := default (m_id m) (p_id u);
     content := default (content m) (p_content u);
     role := default (role m) (p_role u);
     timestamp := default (timestamp m) (p_timestamp u);
     session_id := default (session_id m) (p_session_id u);
     m_agent_id := default (m_agent_id m) (p_agent_id u);
     metadata := default (metadata m) (p_metadata u) |}.

Definition no_updates : PartialMessage :=
  {| p_id := None; p_content := None; p_role := None; p_timestamp := None;
     p_session_id := None; p_agent_id := None; p_metadata := None |}.

Inductive Action : Type :=
| SetCurrentSession (payload : option ChatSession)
| AddMessage (payload : ChatMessage)
| UpdateMessage (id : string) (updates : PartialMessage)
| SetIsStreaming (payload : bool)
| ClearError
| ClearMessages
| FetchChatSessionsPending
| FetchChatSessionsFulfilled (payload : list ChatSession)
| FetchChatSessionsRejected (message : option string)
| CreateChatSessionFulfilled (payload : ChatSession)
| FetchChatMessagesFulfilled (payload : list ChatMessage)
| SendChatMessageFulfilled (payload : ChatMessage)
| GenerateChatCompletionPending
| GenerateChatCompletionFulfilled (payload : ChatMessage)
| GenerateChatCompletionRejected (message : option string)
| DeleteChatSessionFulfilled (payload : string)
| Unhandled (action_type : string).

Definition with_messages (st : ChatState) (ms : list ChatMessage) : ChatState :=
  {| sessions := sessions st; currentSession := currentSession st; messages := ms;
     loading := loading st; error := error st; isStreaming := isStreaming st |}.

Definition with_sessions (st : ChatState) (ss : list ChatSession) : ChatState :=
  {| sessions := ss; currentSession := currentSession st; messages := messages st;
     loading := loading st; error := error st; isStreaming := isStreaming st |}.

Definition with_flags (st : ChatState) (l : bool) (e : option string) (str : bool)
  : ChatState :=
  {| sessions := sessions st; currentSession := currentSession st;
     messages := messages st; loading := l; error := e; isStreaming := str |}.

(** [updateMessage]: the first message with the identifier is merged with
    the updates; nothing happens when there is none. *)
Definition update_message (ms : list ChatMessage) (i : string) (u : PartialMessage)
  : list ChatMessage :=
  match findIndex (λ msg, String.eqb (m_id msg) i) ms with
  | Some index =>
      match ms !! index with
      | Some m => <[index := merge_message m u]> ms
      | None => ms
      end
  | None => ms
  end.

Definition reducer (st : ChatState) (a : Action) : ChatState :=
  match a with
  | SetCurrentSession p =>
      {| sessions := sessions st; currentSession := p; messages := messages st;
         loading := loading st; error := error st; isStreaming := isStreaming st |}
  | AddMessage m => with_messages st (messages st ++ [m])
  | UpdateMessage i u => with_messages st (update_message (messages st) i u)
  | SetIsStreaming b => with_flags st (loading st) (error st) b
  | ClearError => with_flags st (loading st) None (isStreaming st)
  | ClearMessages => with_messages st []
  | FetchChatSessionsPending => with_flags st true None (isStreaming st)
  | FetchChatSessionsFulfilled p =>
      with_sessions (with_flags st false (error st) (isStreaming st)) p
  | FetchChatSessionsRejected m =>
      with_flags st false (Some (or_default m "Failed to fetch chat sessions"))
        (isStreaming st)
  | CreateChatSessionFulfilled p => with_sessions st (sessions st ++ [p])
  | FetchChatMessagesFulfilled p => with_messages st p
  | SendChatMessageFulfilled p => with_messages st (messages st ++ [p])
  | GenerateChatCompletionPending => with_flags st (loading st) (error st) true
  | GenerateChatCompletionFulfilled p =>
      with_messages (with_flags st (loading st) (error st) false) (messages st ++ [p])
  | GenerateChatCompletionRejected m =>
      with_flags st (loading st)
        (Some (or_default m "Failed to generate completion")) false
  | DeleteChatSessionFulfilled p => deleteChatSession_fulfilled st p
  | Unhandled _ => st
  end.

(** The thunks that send a message and ask for a completion. *)
Definition sendChatMessage (sessionId content : string) (agent : option string)
    (r : FetchResult ChatMessage) : ThunkResult ChatMessage :=
  match r with
  | NetworkError m => Rejected m
  | Response ok json =>
      if negb ok then Rejected "Failed to send chat message"
      else match json with Parsed v => Fulfilled v | Unparsable m => Rejected m end
  end.

Definition generateChatCompletion (message : string) (agent model : option string)
    (r : FetchResult ChatMessage) : ThunkResult ChatMessage :=
  match r with
  | NetworkError m => Rejected m
  | Response ok json =>
      if negb ok then Rejected "Failed to generate chat completion"
      else match json with Parsed v => Fulfilled v | Unparsable m => Rejected m end
  end.


Definition dispatch_generateChatCompletion (st : ChatState) (message : string)
    (agent model : option string) (r : FetchResult ChatMessage) : ChatState :=
  let st1 := reducer st GenerateChatCompletionPending in
  match generateChatCompletion message agent model r with
  | Fulfilled p => reducer st1 (GenerateChatCompletionFulfilled p)
  | Rejected m => reducer st1 (GenerateChatCompletionRejected (Some m))
  end.


End Chat.

(** * The task store of the specification (section 4.2)

    The cancellation of a task is carried out by the backend behind
    [POST /api/v1/tasks/{id}/cancel]; the client holds only the caller,
    [ApiService.cancelTask], which posts the request and returns the
    response data. The store below follows the specification. *)

Module TaskStore.

(** Modelled from the spec: the seven task statuses of section 3 (the
    backend's task model is missing from the sources). *)
Inductive Status : Type :=
| pending | decomposed | ready | running | completed | failed | cancelled.

(** Modelled from the spec: the fields of a task record that cancellation
    reads (identifier, optional parent identifier, status); the backend's
    task record is missing from the sources. *)
Record Task : Type := mkTask {
  id : string;
  parent : option string;
  status : Status;
}.


(** Modelled from the spec: a task is terminal once completed, failed or
    cancelled. *)
Definition terminal (s : Status) : bool :=
  match s with
  | completed | failed | cancelled => true
  | _ => false
  end.














End TaskStore.

(** * The agent slice ([agentsSlice.ts]) and the agent shown for a task *)

Module Agents.

(** [export interface Agent] *)
Record Agent : Type := mkAgent {
  id : string;
  name : string;
  description : string;
  type : string;
  model : string;
  is_active : bool;
  created_at : string;
  updated_at : string;
  user_id : string;
  configuration : list (string * any);
}.

(** [export interface AgentsState] *)
Record AgentsState : Type := mkAgentsState {
  agents : list Agent;
  currentAgent : option Agent;
  loading : bool;
  error : option string;
  availableTypes : list string;
  availableModels : list string;
}.

Inductive Action : Type :=
| setCurrentAgent (payload : option Agent)
| clearError
| fetchAgents_pending
| fetchAgents_fulfilled (payload : list Agent)
| fetchAgents_rejected (message : option string)
| createAgent_pending
| createAgent_fulfilled (payload : Agent)
| createAgent_rejected (message : option string)
| updateAgent_fulfilled (payload : Agent)
| deleteAgent_fulfilled (payload : string)
| fetchAvailableTypes_fulfilled (payload : list string)
| fetchAvailableModels_fulfilled (payload : list string)
| unhandled (action_type : string).

Definition with_agents (st : AgentsState) (l : bool) (e : option string)
    (ags : list Agent) : AgentsState :=
  {| agents := ags; currentAgent := currentAgent st; loading := l; error := e;
     availableTypes := availableTypes st; availableModels := availableModels st |}.

Definition replace_agent (ags : list Agent) (payload : Agent) : list Agent :=
  match findIndex (λ agent, String.eqb (id agent) (id payload)) ags with
  | Some index => <[index := payload]> ags
  | None => ags
  end.

Definition reducer (st : AgentsState) (a : Action) : AgentsState :=
  match a with
  | setCurrentAgent p =>
      {| agents := agents st; currentAgent := p; loading := loading st;
         error := error st; availableTypes := availableTypes st;
         availableModels := availableModels st |}
  | clearError => with_agents st (loading st) None (agents st)
  | fetchAgents_pending => with_agents st true None (agents st)
  | fetchAgents_fulfilled p => with_agents st false (error st) p
  | fetchAgents_rejected m =>
      with_agents st false (Some (or_default m "Failed to fetch agents")) (agents st)
  | createAgent_pending => with_agents st true None (agents st)
  | createAgent_fulfilled p => with_agents st false (error st) (agents st ++ [p])
  | createAgent_rejected m =>
      with_agents st false (Some (or_default m "Failed to create agent")) (agents st)
  | updateAgent_fulfilled p =>
      with_agents st (loading st) (error st) (replace_agent (agents st) p)
  | deleteAgent_fulfilled p =>
      with_agents st (loading st) (error st)
        (filter (λ agent, id agent ≠ p) (agents st))
  | fetchAvailableTypes_fulfilled p =>
      {| agents := agents st; currentAgent := currentAgent st; loading := loading st;
         error := error st; availableTypes := p;
         availableModels := availableModels st |}
  | fetchAvailableModels_fulfilled p =>
      {| agents := agents st; currentAgent := currentAgent st; loading := loading st;
         error := error st; availableTypes := availableTypes st;
         availableModels := p |}
  | unhandled _ => st
  end.

(** [selectAvailableAgents]: [state.agents.agents.filter(agent => agent.is_active)] *)
Definition selectAvailableAgents (st : AgentsState) : list Agent :=
  filter (λ agent, is_active agent = true) (agents st).

(** The agent chip of a task ([Tasks.tsx]):
    [availableAgents.find((a) => a.id === task.agent_id)?.name || 'No Agent'] *)
Definition agent_label (availableAgents : list Agent) (agent_id : option string)
  : string :=
  match agent_id with
  | None => "No Agent"
  | Some x =>
      match List.find (λ a, String.eqb (id a) x) availableAgents with
      | Some a => if String.eqb (name a) "" then "No Agent" else name a
      | None => "No Agent"
      end
  end.

(** An example: an agent that is not active. *)
Definition helper : Agent :=
  {| id := "a1"; name := "Helper"; description := ""; type := "research";
     model := "m"; is_active := false; created_at := ""; updated_at := "";
     user_id := "u1"; configuration := [] |}.

(** Two active agents that share the identifier of [helper]. *)
Definition first_active : Agent :=
  {| id := "a1"; name := "First"; description := ""; type := "research";
     model := "m"; is_active := true; created_at := ""; updated_at := "";
     user_id := "u1"; configuration := [] |}.

Definition second_active : Agent :=
  {| id := "a1"; name := "Second"; description := ""; type := "research";
     model := "m"; is_active := true; created_at := ""; updated_at := "";
     user_id := "u1"; configuration := [] |}.

End Agents.

(** * The HTTP client ([ApiService]) *)

Module ApiService.

(** What the service reads and writes in the browser: the token in
    [localStorage] and [window.location.href]. *)
Record Browser : Type := mkBrowser {
  token : option string;
  href : string;
}.

Record Request : Type := mkRequest {
  method : string;
  url : string;
  authorization : option string;
}.

(** The answer to a request: a response with its status and data, or none
    (time-out, network failure). *)
Inductive Reply : Type :=
| Answer (status : nat) (data : any)
| NoAnswer (message : string).

(** The outcome of a call: the response data, or the rejection. *)
Inductive Outcome : Type :=
| Resolved (data : any)
| Failed (status : option nat).

(** The request interceptor: [if (token) config.headers.Authorization = ..];
    an empty token is falsy. *)
Definition request_interceptor (b : Browser) (method url : string) : Request :=
  {| method := method; url := url;
     authorization :=
       match token b with
       | Some t => if String.eqb t "" then None else Some ("Bearer " +:+ t)
       | None => None
       end |}.

(** Axios resolves on a status from 200 to 299 and rejects otherwise. *)
Definition resolves (status : nat) : bool := (200 <=? status) && (status <? 300).

(** The response interceptor on a rejection: on status 401 the token is
    removed and the page goes to the login; the rejection goes on. *)
Definition response_interceptor (b : Browser) (status : option nat) : Browser :=
  match status with
  | Some st => if Nat.eqb st 401 then {| token := None; href := "/login" |} else b
  | None => b
  end.

(** One request of the axios instance ([this.api.get], [post], [put],
    [delete]) through both interceptors: it resolves with the response,
    whose data is kept here, or rejects. *)
Definition call (b : Browser) (method url : string) (reply : Reply)
  : Browser * Request * Outcome :=
  let req := request_interceptor b method url in
  match reply with
  | Answer status data =>
      if resolves status then (b, req, Resolved data)
      else (response_interceptor b (Some status), req, Failed (Some status))
  | NoAnswer _ => (response_interceptor b None, req, Failed None)
  end.

(** How the promise of a method of the service settles: with a value, with
    [undefined] (a method without [return]), or with the rejection of the
    request. *)
Inductive Settled : Type :=
| Returns (data : any)
| ReturnsUndefined
| Rejects (status : option nat).

(** [const response = await ..; return response.data;] *)
Definition return_data (r : Browser * Request * Outcome) : Browser * Request * Settled :=
  (r.1, match r.2 with Resolved data => Returns data | Failed status => Rejects status end).

(** [await ..;] with nothing returned. *)
Definition return_nothing (r : Browser * Request * Outcome) : Browser * Request * Settled :=
  (r.1, match r.2 with Resolved _ => ReturnsUndefined | Failed status => Rejects status end).

(** The task endpoints. *)
Definition getTask (b : Browser) (id : string) (reply : Reply) :=
  return_data (call b "GET" ("/api/v1/tasks/" +:+ id) reply).
Definition deleteTask (b : Browser) (id : string) (reply : Reply) :=
  return_nothing (call b "DELETE" ("/api/v1/tasks/" +:+ id) reply).
Definition executeTask (b : Browser) (id : string) (reply : Reply) :=
  return_data (call b "POST" ("/api/v1/tasks/" +:+ id +:+ "/execute") reply).
Definition getTaskSubtasks (b : Browser) (id : string) (reply : Reply) :=
  return_data (call b "GET" ("/api/v1/tasks/" +:+ id +:+ "/subtasks") reply).
Definition cancelTask (b : Browser) (id : string) (reply : Reply) :=
  return_data (call b "POST" ("/api/v1/tasks/" +:+ id +:+ "/cancel") reply).

(** The endpoints that return [response.data]. *)
Definition data_endpoints : list (Browser → string → Reply → Browser * Request * Settled) :=
  [getTask; executeTask; getTaskSubtasks; cancelTask].

(** The reply is a response with status 401. *)
Definition unauthorized (reply : Reply) : bool :=
  match reply with
  | Answer status _ => Nat.eqb status 401
  | NoAnswer _ => false
  end.

(** A sequence of calls, each answered by its reply. *)
Definition session (b : Browser) (calls : list (string * string * Reply)) : Browser :=
  foldl (λ b c, (call b c.1.1 c.1.2 c.2).1.1) b calls.

End ApiService.

(** * The socket side of [WebSocketService] *)

Module WebSocketClient.
Import WebSocketService.

(** The data of an outgoing message: an object with string fields. *)
Definition JsObject : Type := list (string * string).

(** The socket of socket.io as the service uses it: the [connected] flag,
    the [auth] token and the messages handed to [socket.emit]. *)
Record Socket : Type := mkSocket {
  connected : bool;
  auth : option string;
  outbox : list (string * JsObject);
}.

(** The service: the handler registry, the socket ([null] when absent),
    the token of the configuration, and the warnings written with
    [console.warn]. *)
Record Client : Type := mkClient {
  registry : Service;
  socket : option Socket;
  config_token : option string;
  warnings : list string;
}.

(** [this.socket?.connected || false] *)
Definition isConnected (c : Client) : bool :=
  match socket c with
  | Some sk => connected sk
  | None => false
  end.

Definition getConnectionState (c : Client) : string :=
  match socket c with
  | None => "disconnected"
  | Some sk => if connected sk then "connected" else "disconnected"
  end.

(** [send]: handed to the socket when it is connected, dropped with a
    warning otherwise. *)
Definition send (event : string) (data : JsObject) (c : Client) : Client :=
  match socket c with
  | Some sk =>
      if connected sk then
        {| registry := registry c;
           socket := Some {| connected := connected sk; auth := auth sk;
                             outbox := outbox sk ++ [(event, data)] |};
           config_token := config_token c; warnings := warnings c |}
      else
        {| registry := registry c; socket := socket c;
           config_token := config_token c;
           warnings := warnings c ++ ["WebSocket not connected, cannot send message"] |}
  | None =>
      {| registry := registry c; socket := socket c;
         config_token := config_token c;
         warnings := warnings c ++ ["WebSocket not connected, cannot send message"] |}
  end.

(** [disconnect]: the socket is disconnected and forgotten. *)
Definition disconnect (c : Client) : Client :=
  {| registry := registry c; socket := None;
     config_token := config_token c; warnings := warnings c |}.

Definition updateToken (token : string) (c : Client) : Client :=
  {| registry := registry c;
     socket :=
       match socket c with
       | Some sk => Some {| connected := connected sk; auth := Some token;
                            outbox := outbox sk |}
       | None => None
       end;
     config_token := Some token; warnings := warnings c |}.

(** The specialised messages. *)
Definition subscribeToAgentUpdates (agentId : string) : Client → Client :=
  send "subscribe_agent_updates" [("agent_id", agentId)].
Definition unsubscribeFromAgentUpdates (agentId : string) : Client → Client :=
  send "unsubscribe_agent_updates" [("agent_id", agentId)].
Definition subscribeToTaskUpdates (taskId : string) : Client → Client :=
  send "subscribe_task_updates" [("task_id", taskId)].
Definition unsubscribeFromTaskUpdates (taskId : string) : Client → Client :=
  send "unsubscribe_task_updates" [("task_id", taskId)].
Definition subscribeToSystemNotifications : Client → Client :=
  send "subscribe_system_notifications" [].
Definition unsubscribeFromSystemNotifications : Client → Client :=
  send "unsubscribe_system_notifications" [].
Definition joinChatRoom (sessionId : string) : Client → Client :=
  send "join_chat_room" [("session_id", sessionId)].
Definition leaveChatRoom (sessionId : string) : Client → Client :=
  send "leave_chat_room" [("session_id", sessionId)].
Definition sendChatMessage (sessionId message : string) : Client → Client :=
  send "chat_message" [("session_id", sessionId); ("message", message)].

(** An outgoing message as the context passes it to [send]. *)
Definition sends (c : Client) (ms : list (string * JsObject)) : Client :=
  foldl (λ c m, send m.1 m.2 c) c ms.

(** The events the socket raises, as [connect()] listens to them; a packet
    is an event of the server with its first argument ([onAny]). *)
Inductive SocketEvent : Type :=
| s_connect
| s_disconnect
| s_connect_error (error : string)
| s_error (error : string)
| s_reconnect (attemptNumber : Z)
| s_reconnect_error (error : string)
| s_reconnect_failed
| s_packet (event : string) (arg : any).

(** What the listeners installed by [connect()] pass to [this.emit]: the
    listener of [connect] only resolves the promise and the listener of
    [connect_error] only rejects it. *)
Definition forwarded (ev : SocketEvent) : option (string * any) :=
  match ev with
  | s_connect => None
  | s_disconnect => Some ("disconnect", null)
  | s_connect_error _ => None
  | s_error e => Some ("error", text e)
  | s_reconnect n => Some ("reconnect", number n)
  | s_reconnect_error e => Some ("reconnect_error", text e)
  | s_reconnect_failed => Some ("reconnect_failed", null)
  | s_packet event arg => Some (event, arg)
  end.

End WebSocketClient.

(** * The WebSocket context ([WebSocketContext.tsx]) *)

Module WebSocketContext.
Import WebSocketService.

(** [export interface WebSocketMessage] *)
Record WebSocketMessage : Type := mkMessage {
  type : string;
  data : any;
  timestamp : string;
}.

(** The state of the provider. *)
Record ContextState : Type := mkContextState {
  isConnected : bool;
  connectionState : string;
  lastMessage : option WebSocketMessage;
}.

Definition initialContext : ContextState :=
  {| isConnected := false; connectionState := "disconnected"; lastMessage := None |}.

(** The events the effect registers a handler for, in the order of the
    source: five named handlers, then eight anonymous ones. *)
Definition named_events : list string :=
  ["connect"; "disconnect"; "reconnect"; "error"; "message"].

Definition anonymous_events : list string :=
  ["agent_status_update"; "task_progress_update"; "task_completed";
   "system_notification"; "chat_message"; "agent_created"; "agent_updated";
   "agent_deleted"].

(** One run of the effect creates thirteen new functions; the run whose
    first function is number [base] registers them as [base], [base + 1],
    and so on. *)
Definition register_all (events : list string) (base : nat) (s : Service) : Service :=
  foldl (λ s p, on p.2 (base + p.1) s) s (imap (λ k e, (k, e)) events).

Definition mount (base : nat) (s : Service) : Service :=
  register_all (named_events ++ anonymous_events) base s.

(** The cleanup of the effect: [off] for the five named handlers (it
    also disconnects the socket, which the registry does not hold). *)
Definition cleanup (base : nat) (s : Service) : Service :=
  foldl (λ s p, off p.2 (Some (base + p.1)) s) s (imap (λ k e, (k, e)) named_events).

(** What the [k]-th function of a run does to the state of the provider;
    [now] is the time stamp it reads. *)
Definition run_handler (k : nat) (data : any) (now : string) (cs : ContextState)
  : ContextState :=
  match k with
  | 0 => {| isConnected := true; connectionState := "connected";
            lastMessage := lastMessage cs |}
  | 1 => {| isConnected := false; connectionState := "disconnected";
            lastMessage := lastMessage cs |}
  | 2 => {| isConnected := true; connectionState := "connected";
            lastMessage := lastMessage cs |}
  | 3 => {| isConnected := isConnected cs; connectionState := "error";
            lastMessage := lastMessage cs |}
  | _ =>
      match (named_events ++ anonymous_events) !! k with
      | Some event =>
          {| isConnected := isConnected cs; connectionState := connectionState cs;
             lastMessage := Some {| type := event; data := data; timestamp := now |} |}
      | None => cs
      end
  end.

(** The handlers of the provider only set its state: they leave the
    service alone and do not throw. *)
Definition quiet (h : Handler) (data : any) (s : Service) : Service * Completion :=
  (s, Normal).

(** The state of the provider mounted by the run [base] after the service
    emits [event]: the functions of that run among the handlers invoked
    are applied in order. *)
Definition deliver (base : nat) (now : string) (event : string) (data : any)
    (s : Service) (cs : ContextState) : ContextState :=
  foldl (λ cs h, if (base <=? h) && (h <? base + 13)
                 then run_handler (h - base) data now cs else cs)
    cs (invoked (emit quiet event data s)).

(** The state of the provider after an event of the socket. *)
Definition on_socket_event (base : nat) (now : string)
    (ev : WebSocketClient.SocketEvent) (s : Service) (cs : ContextState)
  : ContextState :=
  match WebSocketClient.forwarded ev with
  | Some (event, data) => deliver base now event data s cs
  | None => cs
  end.

(** The registry after [n] runs of the effect, each followed by its
    cleanup; run [i] creates the functions [13 * i] to [13 * i + 12]. *)
Definition remounted (n : nat) : Service :=
  foldl (λ s i, cleanup (13 * i) (mount (13 * i) s)) empty (seq 0 n).

End WebSocketContext.

(** * Facts about the registry of [WebSocketService] *)

Module Registry.
Import WebSocketService.

(** [splice(indexOf(h), 1)] on a list: without its first [h]. *)
Definition remove_first (h : Handler) (l : list Handler) : list Handler :=
  match indexOf h l with
  | Some index => delete index l
  | None => l
  end.

(** Every event has an array of its own. *)
Definition separated (s : Service) : Prop :=
  well_formed s
  ∧ ∀ e1 e2 r, eventHandlers s !! e1 = Some r → eventHandlers s !! e2 = Some r → e1 = e2.

(** The services that [on] and [off] make of the empty one. *)
Inductive built : Service → Prop :=
| built_empty : built empty
| built_on event h s : built s → built (on event h s)
| built_off event handler s : built s → built (off event handler s).

End Registry.

(** * Properties *)

(** ** [findIndex] *)

Lemma findIndex_Some {A : Type} (p : A → bool) (l : list A) (i : nat) :
  findIndex p l = Some i →
  ∃ x, l !! i = Some x ∧ p x = true ∧ ∀ j y, j < i → l !! j = Some y → p y = false.
Proof.
  revert i. induction l as [|a l IH]; intros i H; simpl in H; [discriminate|].
  destruct (p a) eqn:Hp.
  - injection H as <-. exists a. repeat split; auto. intros j y Hj. lia.
  - destruct (findIndex p l) as [k|] eqn:Hk; simpl in H; [|discriminate].
    injection H as <-. destruct (IH k eq_refl) as (x & Hx & Hpx & Hlt).
    exists x. repeat split; auto.
    intros [|j] y Hj Hy; simpl in Hy.
    + by injection Hy as <-.
    + apply (Hlt j); [lia | done].
Qed.

Lemma findIndex_None {A : Type} (p : A → bool) (l : list A) :
  findIndex p l = None ↔ ∀ x, x ∈ l → p x = false.
Proof.
  induction l as [|a l IH]; simpl.
  - split; [|done]. intros _ x Hx. by apply elem_of_nil in Hx.
  - destruct (p a) eqn:Hp.
    + split; [discriminate|]. intros H. rewrite H in Hp; [discriminate|]. left.
    + destruct (findIndex p l) eqn:Hk; simpl.
      * split; [discriminate|]. intros H.
        assert (Some n = None) as Hn; [|discriminate].
        apply IH. intros x Hx. apply H. by right.
      * split; [|done]. intros _ x Hx.
        apply elem_of_cons in Hx as [->|Hx]; [done|]. by apply IH.
Qed.

(** The first match splits the list. *)
Lemma findIndex_split {A : Type} (p : A → bool) (l1 l2 : list A) (x : A) :
  (∀ y, y ∈ l1 → p y = false) → p x = true →
  findIndex p (l1 ++ x :: l2) = Some (length l1).
Proof.
  intros Hl1 Hx. induction l1 as [|a l1 IH]; simpl.
  - by rewrite Hx.
  - rewrite (Hl1 a); [|left]. rewrite IH; [done|]. intros y Hy. apply Hl1. by right.
Qed.

(** ** The task slice *)

Section TaskSlice.
Import Tasks.

Lemma replace_task_found (ts1 ts2 : list Task) (t p : Task) :
  (∀ x, x ∈ ts1 → id x ≠ id p) → id t = id p →
  replace_task (ts1 ++ t :: ts2) p = ts1 ++ p :: ts2.
Proof.
  intros Hts1 Ht. unfold replace_task.
  rewrite (findIndex_split _ ts1 ts2 t).
  - induction ts1 as [|a ts1 IH]; simpl; [done|]. f_equal. apply IH.
    intros x Hx. apply Hts1. by right.
  - intros y Hy. apply String.eqb_neq. by apply Hts1.
  - by apply String.eqb_eq.
Qed.

Lemma replace_task_absent (ts : list Task) (p : Task) :
  (∀ x, x ∈ ts → id x ≠ id p) → replace_task ts p = ts.
Proof.
  intros H. unfold replace_task.
  assert (findIndex (λ task, String.eqb (id task) (id p)) ts = None) as ->; [|done].
  apply findIndex_None. intros x Hx. apply String.eqb_neq. by apply H.
Qed.

Lemma Forall_replace_task (P : Task → Prop) (ts : list Task) (p : Task) :
  Forall P ts → P p → Forall P (replace_task ts p).
Proof.
  intros Hts Hp. unfold replace_task.
  destruct (findIndex _ ts); [by apply Forall_insert | done].
Qed.

(** One action keeps a property of the stored tasks that the tasks it
    carries have. *)
Lemma reducer_keeps (P : Task → Prop) (st : TasksState) (a : Action) :
  Forall P (tasks st) → (∀ t, currentTask st = Some t → P t) →
  Forall P (action_tasks a) →
  Forall P (tasks (reducer st a)) ∧ (∀ t, currentTask (reducer st a) = Some t → P t).
Proof.
  intros Hts Hcur Ha. destruct a; simpl in *; try (split; assumption).
  - split; [done|]. intros t ->. by inversion Ha.
  - split; [|done]. apply Forall_app. split; [done|]. done.
  - split; [|done]. apply Forall_replace_task; [done|]. by inversion Ha.
  - split; [|done]. apply Forall_replace_task; [done|]. by inversion Ha.
  - split; [|done]. apply Forall_forall. intros x Hx.
    apply list_elem_of_filter in Hx as [_ Hx]. by eapply Forall_forall in Hts.
Qed.

Lemma foldl_reducer_keeps (P : Task → Prop) (actions : list Action) (st : TasksState) :
  Forall P (tasks st) → (∀ t, currentTask st = Some t → P t) →
  Forall (λ a, Forall P (action_tasks a)) actions →
  Forall P (tasks (foldl reducer st actions))
  ∧ (∀ t, currentTask (foldl reducer st actions) = Some t → P t).
Proof.
  revert st. induction actions as [|a actions IH]; intros st Hts Hcur Hall; simpl.
  - done.
  - apply Forall_cons in Hall as [Ha Hall].
    destruct (reducer_keeps P st a Hts Hcur Ha) as [Hts' Hcur'].
    by apply IH.
Qed.

(** C2 (as stated, refuted): a completed task cannot reach pending along
    the listed edges, yet the update to pending succeeds when the server
    accepts it, and the stored task becomes pending; and an update of a
    pending task to cancelled, a listed edge, fails when the server
    answers with a response that is not ok — with the message of
    [updateTask], not with InvalidTransition. *)
Lemma update_ignores_state_machine :
  let t := sample "t1" completed (Some "a1") in
  let t' := sample "t1" pending (Some "a1") in
  let st := run [fetchTasks_fulfilled [t]] in
  let to_pending :=
    {| fd_title := "report"; fd_description := ""; fd_type := "analysis";
       fd_priority := medium; fd_status := pending; fd_agent_id := "a1";
       fd_dependencies := [] |} in
  let to_cancelled :=
    {| fd_title := "report"; fd_description := ""; fd_type := "analysis";
       fd_priority := medium; fd_status := cancelled; fd_agent_id := "a1";
       fd_dependencies := [] |} in
  spec_reachable (status_name (status t)) (status_name (fd_status to_pending)) = false
  ∧ updateTask "t1" to_pending (Response true (Parsed t')) = Fulfilled t'
  ∧ tasks (dispatch_updateTask st "t1" to_pending (Response true (Parsed t'))) = [t']
  ∧ spec_edge (status_name (status t')) (status_name (fd_status to_cancelled)) = true
  ∧ updateTask "t1" to_cancelled (Response false (Unparsable ""))
    = Rejected "Failed to update task".
Proof. repeat split; vm_compute; reflexivity. Qed.

(** C2 (amended): the client checks no update against a state machine.
    Whatever the task and the requested fields, [updateTask] fails exactly
    when the request does — no response, a response that is not ok
    (message "Failed to update task"), or a body that does not parse — and
    the state is then unchanged; otherwise it succeeds and the returned
    task as a whole replaces the first stored task with its identifier
    (nothing changes when no stored task has it). *)
Theorem update_follows_the_response (st : TasksState) (i : string) (updates : FormData)
    (r : FetchResult Task) :
  match updateTask i updates r with
  | Fulfilled p =>
      r = Response true (Parsed p)
      ∧ dispatch_updateTask st i updates r = set_tasks st (replace_task (tasks st) p)
      ∧ (∀ ts1 t ts2, tasks st = ts1 ++ t :: ts2 →
           (∀ x, x ∈ ts1 → id x ≠ id p) → id t = id p →
           replace_task (tasks st) p = ts1 ++ p :: ts2)
      ∧ ((∀ x, x ∈ tasks st → id x ≠ id p) → replace_task (tasks st) p = tasks st)
  | Rejected m =>
      dispatch_updateTask st i updates r = st
      ∧ (r = NetworkError m
         ∨ (m = "Failed to update task" ∧ ∃ body, r = Response false body)
         ∨ r = Response true (Unparsable m))
  end.
Proof.
  destruct r as [m|[] [p|m]]; simpl.
  - split; [done|]. by left.
  - split; [done|]. split; [done|]. split.
    + intros ts1 t ts2 -> H1 H2. by apply replace_task_found.
    + apply replace_task_absent.
  - split; [done|]. right. by right.
  - split; [done|]. right. left. split; [done|]. by eexists.
  - split; [done|]. right. left. split; [done|]. by eexists.
Qed.

Lemma update_follows_the_response_witness :
  let t := sample "t1" completed (Some "a1") in
  let p := with_title t "summary" in
  replace_task (tasks (run [fetchTasks_fulfilled [sample "t0" pending None; t]])) p
  = [sample "t0" pending None; p].
Proof.
  intros t p.
  pose proof (update_follows_the_response
                (run [fetchTasks_fulfilled [sample "t0" pending None; t]])
                "t1" emptyForm (Response true (Parsed p))) as H.
  simpl in H. destruct H as (_ & _ & H & _).
  apply (H [sample "t0" pending None] t []).
  - reflexivity.
  - intros x Hx. apply list_elem_of_singleton in Hx as ->. discriminate.
  - reflexivity.
Defined.

(** C3 (as stated, refuted): a pending task without agent is created,
    its execute button is clicked, the server answers with the task
    running and still without agent: the state reached holds a running
    task with no assigned agent. *)
Lemma running_task_without_agent_is_reachable :
  let t := sample "t1" pending None in
  let t' := sample "t1" running None in
  let st1 := dispatch_createTask initialState emptyForm (Response true (Parsed t)) in
  let st2 := click_execute st1 t (Response true (Parsed t')) in
  st2 = run [createTask_pending; createTask_fulfilled t;
             unhandled "tasks/executeTask/pending"; executeTask_fulfilled t']
  ∧ tasks st2 = [t']
  ∧ status t' = running ∧ agent_id t' = None ∧ assigned_agents t' = 0.
Proof. repeat split; vm_compute; reflexivity. Qed.

(** C3 (amended): a task names at most one agent, and the reducer keeps
    tasks as they arrive: after any sequence of actions in which every
    task carried by an action has an agent if it is running, every stored
    task, and the current task, has an agent if it is running. *)
Theorem running_has_agent_if_received_so (actions : list Action) :
  Forall (λ a, Forall (λ t, running_has_agent t = true) (action_tasks a)) actions →
  Forall (λ t, running_has_agent t = true ∧ assigned_agents t ≤ 1) (tasks (run actions))
  ∧ (∀ t, currentTask (run actions) = Some t → running_has_agent t = true).
Proof.
  intros H.
  destruct (foldl_reducer_keeps (λ t, running_has_agent t = true) actions initialState)
    as [Hts Hcur]; [by constructor | by intros t | done |].
  split; [|done]. unfold run. eapply Forall_impl; [exact Hts|].
  intros t Ht. split; [done|]. unfold assigned_agents. destruct (agent_id t); lia.
Qed.

Lemma running_has_agent_if_received_so_witness :
  Forall (λ t, running_has_agent t = true ∧ assigned_agents t ≤ 1)
    (tasks (run [createTask_fulfilled (sample "t1" pending None);
                 executeTask_fulfilled (sample "t1" running (Some "a1"))])).
Proof.
  apply (running_has_agent_if_received_so
           [createTask_fulfilled (sample "t1" pending None);
            executeTask_fulfilled (sample "t1" running (Some "a1"))]).
  repeat constructor.
Defined.






End TaskSlice.

(** ** The task slice at run time *)

Section TaskWireStatus.
Import TaskWire.

Lemma findIndex_fmap {A B : Type} (f : A → B) (p : B → bool) (l : list A) :
  findIndex p (f <$> l) = findIndex (λ x, p (f x)) l.
Proof.
  induction l as [|x l IH]; simpl; [done|].
  destruct (p (f x)); [done|]. exact (f_equal (fmap S) IH).
Qed.

Lemma untyped_replace_task (ts : list Tasks.Task) (p : Tasks.Task) :
  untyped <$> Tasks.replace_task ts p = replace_task (untyped <$> ts) (untyped p).
Proof.
  unfold Tasks.replace_task, replace_task. rewrite findIndex_fmap. simpl.
  destruct (findIndex _ ts) as [i|]; [|done]. by rewrite list_fmap_insert.
Qed.

Lemma untyped_filter (ts : list Tasks.Task) (p : string) :
  untyped <$> filter (λ task, Tasks.id task ≠ p) ts
  = filter (λ task, id task ≠ p) (untyped <$> ts).
Proof.
  induction ts as [|t ts IH]; [done|].
  rewrite fmap_cons, !filter_cons. cbn [untyped id].
  destruct (decide (Tasks.id t ≠ p)); [rewrite fmap_cons|]; by rewrite IH.
Qed.

(** The slice on typed tasks is the slice at run time on the objects
    those tasks are. *)
Lemma untyped_reducer (st : Tasks.TasksState) (a : Tasks.Action) :
  untyped_state (Tasks.reducer st a) = reducer (untyped_state st) (untyped_action a).
Proof.
  destruct a; try reflexivity; unfold untyped_state; simpl; unfold set_tasks; simpl;
    f_equal.
  - by rewrite fmap_app.
  - apply untyped_replace_task.
  - apply untyped_replace_task.
  - apply untyped_filter.
Qed.

Lemma declared_status_name (s : Tasks.TaskStatus) :
  declared_status (Tasks.status_name s) = Some s.
Proof. by destruct s. Qed.

Lemma typed_untyped (t : Tasks.Task) : typed (untyped t) = Some t.
Proof.
  unfold typed, untyped. simpl. rewrite declared_status_name.
  destruct t as [? ? ? ? [] ? ? ? ? ? ? ?]; reflexivity.
Qed.

Lemma declared_status_five (name : string) :
  is_Some (declared_status name)
  ↔ name ∈ ["pending"; "running"; "completed"; "failed"; "cancelled"].
Proof.
  unfold declared_status. split.
  - destruct (String.eqb name "pending") eqn:E1;
      [apply String.eqb_eq in E1 as ->; intros _; apply list_elem_of_In; simpl; tauto|].
    destruct (String.eqb name "running") eqn:E2;
      [apply String.eqb_eq in E2 as ->; intros _; apply list_elem_of_In; simpl; tauto|].
    destruct (String.eqb name "completed") eqn:E3;
      [apply String.eqb_eq in E3 as ->; intros _; apply list_elem_of_In; simpl; tauto|].
    destruct (String.eqb name "failed") eqn:E4;
      [apply String.eqb_eq in E4 as ->; intros _; apply list_elem_of_In; simpl; tauto|].
    destruct (String.eqb name "cancelled") eqn:E5;
      [apply String.eqb_eq in E5 as ->; intros _; apply list_elem_of_In; simpl; tauto|].
    by intros [? ?].
  - intros H. repeat (apply elem_of_cons in H as [->|H]); simpl; eauto.
    by apply elem_of_nil in H.
Qed.

(** C1 (as stated, refuted): the server answers the request for the tasks
    with a task whose status is archived, a string that is none of the
    seven; the task is stored with that status and is shown with the
    default colour. Nor are decomposed and ready members of the status
    union of the [Task] interface: an object with one of them is stored
    all the same, and is no [Task] of the interface. *)
Lemma status_outside_the_seven_is_stored :
  let st := dispatch_fetchTasks initialState
              (Response true (Parsed [received "t1" "archived";
                                      received "t2" "decomposed"])) in
  tasks st = [received "t1" "archived"; received "t2" "decomposed"]
  ∧ ¬ (status (received "t1" "archived") ∈ Tasks.spec_status_names)
  ∧ Tasks.getStatusColor (status (received "t1" "archived")) = "default"
  ∧ declared_status "decomposed" = None
  ∧ declared_status "ready" = None
  ∧ typed (received "t2" "decomposed") = None.
Proof.
  repeat split; try reflexivity.
  unfold Tasks.spec_status_names. simpl. intros H.
  repeat (apply elem_of_cons in H as [H|H]; [discriminate H|]).
  by apply elem_of_nil in H.
Qed.

(** C1 (amended): the status union of the [Task] interface has the five
    members pending, running, completed, failed and cancelled; of the
    seven names of the specification, decomposed and ready are the two
    that are no members. The union is not enforced when the program runs:
    whatever the status string of a task object that the server sends,
    the object is stored as it is when the tasks are fetched, when a task
    is created, and when a stored task with its identifier is updated or
    executed; a status that is no member of the union is shown with the
    default colour, without the execute button and with the edit and the
    delete button enabled. On objects whose priority and status are
    members of the unions, the store is the store on the tasks of the
    interface. *)
Theorem status_union_is_declared_not_enforced (st : TasksState) (ts : list Task)
    (t : Task) (fd : Tasks.FormData) :
  (∀ name, is_Some (declared_status name)
           ↔ name ∈ ["pending"; "running"; "completed"; "failed"; "cancelled"])
  ∧ (∀ s, declared_status (Tasks.status_name s) = Some s
          ∧ Tasks.status_name s ∈ Tasks.spec_status_names)
  ∧ (∀ name, name ∈ Tasks.spec_status_names →
       (declared_status name = None ↔ name = "decomposed" ∨ name = "ready"))
  ∧ tasks (dispatch_fetchTasks st (Response true (Parsed ts))) = ts
  ∧ tasks (dispatch_createTask st fd (Response true (Parsed t))) = tasks st ++ [t]
  ∧ (∀ i, findIndex (λ task, String.eqb (id task) (id t)) (tasks st) = Some i →
       tasks (dispatch_updateTask st (id t) fd (Response true (Parsed t)))
       = <[i := t]> (tasks st)
       ∧ tasks (dispatch_executeTask st (id t) (Response true (Parsed t)))
         = <[i := t]> (tasks st))
  ∧ (declared_status (status t) = None →
       Tasks.getStatusColor (status t) = "default"
       ∧ execute_shown t = false ∧ edit_disabled t = false
       ∧ delete_disabled t = false)
  ∧ (∀ st0 a, untyped_state (Tasks.reducer st0 a)
              = reducer (untyped_state st0) (untyped_action a))
  ∧ (∀ t0, typed (untyped t0) = Some t0).
Proof.
  split; [apply declared_status_five|]. split.
  { intros s. split; [apply declared_status_name|].
    apply list_elem_of_In. destruct s; simpl; tauto. }
  split; [|split; [done|]; split; [done|]; split; [|split; [|split]]].
  - intros name H. unfold Tasks.spec_status_names in H.
    repeat (apply elem_of_cons in H as [->|H]);
      [| | | | | | |by apply elem_of_nil in H];
      (split; [try discriminate; auto | intros [H|H]; try discriminate H; done]).
  - intros i Hi. simpl. unfold replace_task. by rewrite Hi.
  - unfold declared_status, Tasks.getStatusColor, execute_shown, edit_disabled,
      delete_disabled.
    repeat (destruct (String.eqb (status t) _); [discriminate|]). done.
  - apply untyped_reducer.
  - apply typed_untyped.
Qed.

End TaskWireStatus.


(** ** The chat slice *)

Section ChatSlice.
Import Chat.

(** C10: the delete-session reducer keeps, in their order, exactly the
    sessions whose identifier differs from [s]; when the current session
    has identifier [s], the current session becomes null and the message
    list empty; otherwise both are unchanged; the other fields are
    unchanged in both cases. *)
Theorem delete_session_removes_and_resets (st : ChatState) (s : string) :
  let st' := deleteChatSession_fulfilled st s in
  sessions st' = filter (λ x, id x ≠ s) (sessions st)
  ∧ (∀ x, x ∈ sessions st' ↔ x ∈ sessions st ∧ id x ≠ s)
  ∧ match currentSession st with
    | Some c =>
        if decide (id c = s)
        then currentSession st' = None ∧ messages st' = []
        else currentSession st' = Some c ∧ messages st' = messages st
    | None => currentSession st' = None ∧ messages st' = messages st
    end
  ∧ loading st' = loading st
  ∧ error st' = error st
  ∧ isStreaming st' = isStreaming st.
Proof.
  intros st'. subst st'. unfold deleteChatSession_fulfilled, current_is.
  assert (∀ l : list ChatSession, ∀ x,
            x ∈ filter (λ x, id x ≠ s) l ↔ x ∈ l ∧ id x ≠ s) as Hmem.
  { intros l x. rewrite list_elem_of_filter. tauto. }
  destruct (currentSession st) as [c|] eqn:Hc.
  - destruct (decide (id c = s)) as [Heq|Hne].
    + apply String.eqb_eq in Heq. rewrite Heq. simpl.
      split; [done|]. split; [apply Hmem|]. done.
    + apply String.eqb_neq in Hne. rewrite Hne. simpl.
      split; [done|]. split; [apply Hmem|]. done.
  - simpl. split; [done|]. split; [apply Hmem|]. done.
Qed.

End ChatSlice.

(** ** The event registry *)

Section EventRegistry.
Import WebSocketService.

Section Loop.
Context (behaviour : Handler → any → Service → Service * Completion).
Context (event : string) (data : any) (r : ArrayRef).

(** One guarded call: the handler is recorded, the service is what the
    handler left, and the callback returns normally. *)
Lemma guarded_step (h : Handler) (st : Emitted) :
  ∃ c,
    guarded behaviour event data h st
    = ({| service := (behaviour h data (service st)).1;
          calls := calls st ++ [(h, c)];
          console := console st ++ thrown event [(h, c)] |}, Normal)
    ∧ c = (behaviour h data (service st)).2.
Proof.
  unfold guarded. destruct (behaviour h data (service st)) as [s' [|error]]; simpl.
  - exists Normal. by rewrite app_nil_r.
  - by exists (Throw error).
Qed.




(** While the array keeps the elements it had when the loop began (more
    may be pushed behind them), the loop visits them all, and only them. *)
Lemma forEach_from_stable (Inv : Service → Prop) (hs : list Handler) :
  (∀ s, Inv s → ∃ more, array_of s r = hs ++ more) →
  (∀ h s, h ∈ hs → Inv s → Inv (behaviour h data s).1) →
  ∀ n k st, Inv (service st) → k + n = length hs →
    let res := forEach_from (guarded behaviour event data) r k n st in
    Inv (service res.1) ∧ fst <$> calls res.1 = (fst <$> calls st) ++ drop k hs.
Proof.
  intros Harr Hkeep. induction n as [|n IH]; intros k st Hst Hlen; simpl.
  - split; [done|]. rewrite drop_ge; [|lia]. by rewrite app_nil_r.
  - destruct (Harr _ Hst) as [more ->]. rewrite lookup_app_l by lia.
    destruct (hs !! k) as [h|] eqn:Hk.
    + destruct (guarded_step h st) as (c & -> & _).
      assert (h ∈ hs) as Hin by (apply list_elem_of_lookup; eauto).
      destruct (IH (S k)
                  {| service := (behaviour h data (service st)).1;
                     calls := calls st ++ [(h, c)];
                     console := console st ++ thrown event [(h, c)] |})
        as [HI Hc]; [by apply Hkeep | lia |].
      split; [done|]. rewrite Hc. simpl. rewrite fmap_app. simpl.
      rewrite <- (assoc_L (++)). simpl. by rewrite (drop_S hs h k).
    + apply lookup_ge_None in Hk. lia.
Qed.

End Loop.


Lemma findIndex_delete_once {A : Type} (p : A → bool) (l : list A) (i : nat) :
  findIndex p l = Some i →
  length (filter (λ x, p x = true) l) ≤ 1 →
  findIndex p (delete i l) = None.
Proof.
  revert i. induction l as [|a l IH]; intros i Hi Hc; simpl in Hi; [discriminate|].
  rewrite filter_cons in Hc.
  destruct (p a) eqn:Hp.
  - injection Hi as <-. simpl.
    destruct (decide (true = true)) as [_|Hn]; [|done]. simpl in Hc.
    apply findIndex_None. intros x Hx.
    destruct (p x) eqn:Hpx; [|done].
    assert (x ∈ filter (λ x, p x = true) l) as Hin by (by apply list_elem_of_filter).
    destruct (filter (λ x, p x = true) l); [by apply elem_of_nil in Hin | simpl in Hc; lia].
  - destruct (findIndex p l) as [j|] eqn:Hj; simpl in Hi; [|discriminate].
    injection Hi as <-. simpl. rewrite Hp.
    destruct (decide (false = true)) as [Hn|_]; [discriminate|].
    by rewrite (IH j).
Qed.


(** A handler registered with [on] comes after those already there. *)
Lemma on_appends (event : string) (h : Handler) (s : Service) :
  well_formed s → handlers_of (on event h s) event = handlers_of s event ++ [h].
Proof.
  intros Hwf. unfold on, handlers_of.
  destruct (eventHandlers s !! event) as [r|] eqn:He; simpl.
  - rewrite lookup_insert_eq. unfold array_of. simpl. rewrite lookup_alter_eq.
    by destruct (Hwf _ _ He) as [l ->].
  - rewrite lookup_insert_eq. unfold array_of. simpl. by rewrite lookup_insert_eq.
Qed.

Lemma well_formed_empty : well_formed empty.
Proof. intros event r H. simpl in H. by rewrite lookup_empty in H. Qed.

Lemma well_formed_on (event : string) (h : Handler) (s : Service) :
  well_formed s → well_formed (on event h s).
Proof.
  intros Hwf event' r'. unfold on.
  destruct (eventHandlers s !! event) as [r|] eqn:He; simpl; intros H.
  - apply lookup_alter_is_Some.
    destruct (decide (event = event')) as [<-|Hne].
    + rewrite lookup_insert_eq in H. injection H as <-. by apply (Hwf event).
    + rewrite lookup_insert_ne in H by done. by apply (Hwf event').
  - destruct (decide (event = event')) as [<-|Hne].
    + rewrite lookup_insert_eq in H. injection H as <-. rewrite lookup_insert_eq. eauto.
    + rewrite lookup_insert_ne in H by done.
      apply lookup_insert_is_Some'. right. by apply (Hwf event').
Qed.

Lemma well_formed_off (event : string) (handler : option Handler) (s : Service) :
  well_formed s → well_formed (off event handler s).
Proof.
  intros Hwf event' r'. unfold off. destruct handler as [h|]; simpl.
  - destruct (eventHandlers s !! event) as [r|] eqn:He; [|apply Hwf].
    destruct (indexOf h (array_of s r)); [|apply Hwf]. simpl. intros H.
    apply lookup_alter_is_Some.
    destruct (decide (event = event')) as [<-|Hne].
    + rewrite lookup_insert_eq in H. injection H as <-. by apply (Hwf event).
    + rewrite lookup_insert_ne in H by done. by apply (Hwf event').
  - intros H. apply lookup_delete_Some in H as [_ H]. by apply (Hwf event').
Qed.

(** Handlers registered one after the other on the empty service are
    held in that order. *)
Lemma registered_in_order (event : string) (hs : list Handler) :
  let s := foldl (λ s h, on event h s) empty hs in
  well_formed s ∧ handlers_of s event = hs.
Proof.
  induction hs as [|h hs IH] using rev_ind; simpl.
  - split; [apply well_formed_empty | done].
  - rewrite foldl_snoc. destruct IH as [Hwf Hhs].
    split; [by apply well_formed_on|]. by rewrite on_appends, Hhs.
Qed.

(** [emit] when no handler of the event is removed during delivery. *)
Lemma emit_stable (behaviour : Handler → any → Service → Service * Completion)
    (event : string) (data : any) (s : Service) (Inv : Service → Prop) :
  Inv s →
  (∀ s' r, Inv s' → eventHandlers s !! event = Some r →
           ∃ more, array_of s' r = handlers_of s event ++ more) →
  (∀ h s', h ∈ handlers_of s event → Inv s' → Inv (behaviour h data s').1) →
  invoked (emit behaviour event data s) = handlers_of s event.
Proof.
  intros HI Harr Hkeep. unfold emit, invoked, forEach.
  destruct (eventHandlers s !! event) as [r|] eqn:He.
  - assert (handlers_of s event = array_of s r) as Hh
      by (unfold handlers_of; by rewrite He).
    pose proof (forEach_from_stable behaviour event data r Inv (handlers_of s event)
                  (λ s' Hs', Harr s' r Hs' eq_refl) Hkeep
                  (length (array_of s r)) 0
                  {| service := s; calls := []; console := [] |} HI) as Hloop.
    simpl in Hloop. rewrite Hh in Hloop. destruct (Hloop eq_refl) as [_ Hc].
    simpl. rewrite Hc. by rewrite Hh.
  - unfold handlers_of. by rewrite He.
Qed.



(** C7: handlers 1, 2 and 3 are registered, in this order, for
    task_completed, and handler 1 unsubscribes itself when called. [emit]
    calls handlers 1 and 3 and returns: handler 2, registered when [emit]
    was called and still registered when it returns, is never called,
    because [splice] moves it to index 0 of the array that [forEach] is
    iterating over after index 0 has had its turn. When handler 1 removes
    every handler of the event instead ([off] without a handler), the
    array stays as it is and all three handlers are called. *)
Theorem emit_skips_registered_handler :
  let s := on "task_completed" 3 (on "task_completed" 2 (on "task_completed" 1 empty)) in
  let res := emit once_behaviour "task_completed" null s in
  let cleared := emit clearing_behaviour "task_completed" null s in
  handlers_of s "task_completed" = [1; 2; 3]
  ∧ calls res.1 = [(1, Normal); (3, Normal)]
  ∧ res.2 = Normal
  ∧ console res.1 = []
  ∧ handlers_of (service res.1) "task_completed" = [2; 3]
  ∧ calls cleared.1 = [(1, Normal); (2, Normal); (3, Normal)]
  ∧ handlers_of (service cleared.1) "task_completed" = [].
Proof. repeat split; vm_compute; reflexivity. Qed.

(** C8 (as stated, refuted): handler 7 is registered twice for an event;
    the first [off] removes one registration, the second removes the
    other, so the registry after two removals is not the registry after
    one. *)
Lemma off_twice_differs_when_registered_twice :
  let s := on "agent_updated" 7 (on "agent_updated" 7 empty) in
  registrations s "agent_updated" 7 = 2
  ∧ handlers_of (off "agent_updated" (Some 7) s) "agent_updated" = [7]
  ∧ handlers_of (off "agent_updated" (Some 7) (off "agent_updated" (Some 7) s))
      "agent_updated" = []
  ∧ off "agent_updated" (Some 7) (off "agent_updated" (Some 7) s)
    ≠ off "agent_updated" (Some 7) s.
Proof.
  repeat split; try (vm_compute; reflexivity).
  intros H. apply (f_equal (λ s, handlers_of s "agent_updated")) in H.
  vm_compute in H. discriminate H.
Qed.

(** C8 (amended): removing a handler a second time leaves the registry as
    the first removal left it when the handler is registered at most once
    for the event (each removal takes out the first registration only);
    removing all handlers of an event, [off] without a handler, is
    idempotent without condition. *)
Theorem off_twice_is_off_once (s : Service) (event : string) (handler : option Handler) :
  (∀ h, handler = Some h → registrations s event h ≤ 1) →
  off event handler (off event handler s) = off event handler s.
Proof.
  intros Hreg. destruct handler as [h|]; simpl.
  - specialize (Hreg h eq_refl). unfold registrations, handlers_of in Hreg.
    destruct (eventHandlers s !! event) as [r|] eqn:He; [|by rewrite He].
    destruct (indexOf h (array_of s r)) as [i|] eqn:Hi; [|by rewrite He, Hi].
    simpl. rewrite lookup_insert_eq.
    assert (indexOf h
              (array_of {| eventHandlers := <[event:=r]> (eventHandlers s);
                           arrays := alter (delete i) r (arrays s) |} r) = None)
      as ->; [|done].
    unfold array_of in *. simpl. rewrite lookup_alter_eq.
    destruct (arrays s !! r) as [l|]; simpl in *; [|done].
    apply findIndex_delete_once; [done|].
    erewrite list_filter_iff; [exact Hreg|].
    intros x. simpl. apply Nat.eqb_eq.
  - f_equal. apply delete_delete_eq.
Qed.

Lemma off_twice_is_off_once_witness :
  let s := on "agent_updated" 8 (on "agent_updated" 7 empty) in
  off "agent_updated" (Some 7) (off "agent_updated" (Some 7) s)
  = off "agent_updated" (Some 7) s.
Proof.
  intros s. apply (off_twice_is_off_once s "agent_updated" (Some 7)).
  intros h Hh. injection Hh as <-. vm_compute. lia.
Defined.

(** Without the [try], the loop stops at the handler that throws:
    handler 2, registered after handler 3, is not called. *)
Lemma unguarded_loop_stops_at_throw :
  let s := on "task_completed" 2 (on "task_completed" 3 (on "task_completed" 1 empty)) in
  let res := forEach (unguarded failing_behaviour null) 1%positive
               {| service := s; calls := []; console := [] |} in
  eventHandlers s !! "task_completed" = Some 1%positive
  ∧ invoked res = [1; 3] ∧ res.2 = Throw "boom".
Proof. repeat split; vm_compute; reflexivity. Qed.



End EventRegistry.

(** ** The task store of the specification *)

Section TaskStoreCascade.
Import TaskStore.














End TaskStoreCascade.


(** ** Further properties of the task slice and of the task page *)

Section TaskSliceMore.
Import Tasks.

(** A list with an element satisfying [f] splits at the first one. *)
Lemma first_match_split {A : Type} (f : A → bool) (l : list A) :
  (∃ x, x ∈ l ∧ f x = true) →
  ∃ l1 x l2, l = l1 ++ x :: l2 ∧ f x = true ∧ ∀ y, y ∈ l1 → f y = false.
Proof.
  induction l as [|a l IH]; intros (x & Hx & Hfx).
  - by apply elem_of_nil in Hx.
  - destruct (f a) eqn:Hfa.
    + exists [], a, l. split; [done|]. split; [done|].
      intros y Hy. by apply elem_of_nil in Hy.
    + apply elem_of_cons in Hx as [->|Hx]; [congruence|].
      destruct IH as (l1 & z & l2 & -> & Hz & Hl1); [eauto|].
      exists (a :: l1), z, l2. split; [done|]. split; [done|].
      intros y Hy. apply elem_of_cons in Hy as [->|Hy]; auto.
Qed.

Lemma find_first_match {A : Type} (f : A → bool) (l1 l2 : list A) (x : A) :
  (∀ y, y ∈ l1 → f y = false) → f x = true → List.find f (l1 ++ x :: l2) = Some x.
Proof.
  intros Hl1 Hx. induction l1 as [|a l1 IH]; simpl.
  - by rewrite Hx.
  - rewrite (Hl1 a); [|left]. apply IH. intros y Hy. apply Hl1. by right.
Qed.

Lemma replace_task_ids (ts : list Task) (p : Task) :
  id <$> replace_task ts p = id <$> ts.
Proof.
  unfold replace_task.
  destruct (findIndex _ ts) as [i|] eqn:Hi; [|done].
  apply findIndex_Some in Hi as (x & Hx & Hid & _).
  apply String.eqb_eq in Hid.
  rewrite list_fmap_insert. apply list_insert_id.
  by rewrite list_lookup_fmap, Hx, <- Hid.
Qed.

(** X1: an accepted update or execution never adds, removes or reorders
    tasks: the identifiers of the stored tasks, in their order, are the
    same before and after, whatever task the server returned. *)
Theorem update_and_execute_keep_identifiers (st : TasksState) (p : Task) :
  id <$> tasks (reducer st (updateTask_fulfilled p)) = id <$> tasks st
  ∧ id <$> tasks (reducer st (executeTask_fulfilled p)) = id <$> tasks st
  ∧ length (tasks (reducer st (updateTask_fulfilled p))) = length (tasks st)
  ∧ length (tasks (reducer st (executeTask_fulfilled p))) = length (tasks st).
Proof.
  simpl. pose proof (replace_task_ids (tasks st) p) as H.
  repeat split; try exact H;
    by rewrite <- (length_fmap id), H, length_fmap.
Qed.

(** X2: after an accepted delete no stored task has the identifier, the
    other tasks are kept in their order, deleting again changes nothing,
    and deleting an identifier that no stored task has changes nothing. *)
Theorem delete_removes_every_task_with_the_identifier (st : TasksState) (i : string) :
  let st' := reducer st (deleteTask_fulfilled i) in
  (∀ t, t ∈ tasks st' ↔ t ∈ tasks st ∧ id t ≠ i)
  ∧ tasks st' `sublist_of` tasks st
  ∧ reducer st' (deleteTask_fulfilled i) = st'
  ∧ ((∀ t, t ∈ tasks st → id t ≠ i) → st' = st).
Proof.
  simpl. split; [|split; [|split]].
  - intros t. rewrite list_elem_of_filter. tauto.
  - apply sublist_filter.
  - unfold set_tasks. simpl. f_equal.
    rewrite list_filter_filter. apply list_filter_iff. intros t. tauto.
  - intros H. destruct st as [ts c l e a f]. unfold set_tasks. simpl in *. f_equal.
    induction ts as [|t ts IH]; [done|].
    rewrite filter_cons_True; [|apply H; left].
    f_equal. apply IH. intros u Hu. apply H. by right.
Qed.

Lemma delete_removes_every_task_with_the_identifier_witness :
  let st := run [fetchTasks_fulfilled [sample "t0" pending None]] in
  reducer st (deleteTask_fulfilled "t1") = st.
Proof.
  intros st.
  destruct (delete_removes_every_task_with_the_identifier st "t1") as (_ & _ & _ & H).
  apply H. intros t Ht. simpl in Ht. apply list_elem_of_singleton in Ht as ->.
  discriminate.
Defined.

(** X3: when some stored task has the identifier of the returned task,
    the task found under that identifier after an accepted update is the
    returned task; when the stored identifiers are distinct they stay
    distinct and no stored task with that identifier is stale. *)
Theorem updated_task_is_found (st : TasksState) (p : Task) :
  (∃ t, t ∈ tasks st ∧ id t = id p) →
  let st' := reducer st (updateTask_fulfilled p) in
  task_with_id (tasks st') (id p) = Some p
  ∧ (NoDup (id <$> tasks st) →
       NoDup (id <$> tasks st') ∧ ∀ t, t ∈ tasks st' → id t = id p → t = p).
Proof.
  intros (t0 & Ht0 & Hid0). simpl.
  destruct (first_match_split (λ t, String.eqb (id t) (id p)) (tasks st))
    as (l1 & x & l2 & Hsplit & Hx & Hl1).
  { exists t0. split; [done|]. by apply String.eqb_eq. }
  apply String.eqb_eq in Hx.
  assert (∀ y, y ∈ l1 → id y ≠ id p) as Hl1'.
  { intros y Hy. apply String.eqb_neq. by apply Hl1. }
  rewrite Hsplit, (replace_task_found l1 l2 x p Hl1' Hx). split.
  - unfold task_with_id. apply find_first_match; [done|]. apply String.eqb_refl.
  - intros Hnd. split.
    + rewrite fmap_app, fmap_cons in *. by rewrite <- Hx.
    + intros t Ht Hid. apply elem_of_app in Ht as [Ht|Ht].
      * by destruct (Hl1' t Ht).
      * apply elem_of_cons in Ht as [->|Ht]; [done|]. exfalso.
        rewrite fmap_app, fmap_cons in Hnd.
        apply NoDup_app in Hnd as (_ & _ & Hnd).
        apply NoDup_cons in Hnd as [Hnotin _]. apply Hnotin.
        rewrite Hx, <- Hid. apply list_elem_of_fmap. eauto.
Qed.

Lemma updated_task_is_found_witness :
  task_with_id
    (tasks (reducer (run [fetchTasks_fulfilled [sample "t0" pending None;
                                                sample "t1" pending None]])
              (updateTask_fulfilled (sample "t1" running (Some "a1")))))
    "t1"
  = Some (sample "t1" running (Some "a1")).
Proof.
  apply (updated_task_is_found
           (run [fetchTasks_fulfilled [sample "t0" pending None;
                                       sample "t1" pending None]])
           (sample "t1" running (Some "a1"))).
  exists (sample "t1" pending None). split; [|reflexivity].
  simpl. apply elem_of_cons. right. apply elem_of_cons. by left.
Defined.

Lemma or_default_not_empty (m : option string) (fallback : string) :
  fallback ≠ "" → or_default m fallback ≠ "".
Proof.
  intros Hf. unfold or_default. destruct m as [m|]; [|done].
  destruct (String.eqb m "") eqn:E; [done|]. by apply String.eqb_neq.
Qed.

(** X4: a failed request is recorded for fetching and creating only. When
    [fetchTasks] or [createTask] fails, the stored tasks are kept, loading
    stops and a message that is never empty is recorded (the fallback
    takes the place of an empty message); when [executeTask] or
    [deleteTask] fails, the state is exactly what it was: no message is
    recorded. *)
Theorem failed_requests_and_their_trace (st : TasksState) :
  (∀ r m, fetchTasks r = Rejected m →
     let st' := dispatch_fetchTasks st r in
     tasks st' = tasks st ∧ loading st' = false
     ∧ ∃ e, error st' = Some e ∧ e ≠ "")
  ∧ (∀ d r m, createTask d r = Rejected m →
     let st' := dispatch_createTask st d r in
     tasks st' = tasks st ∧ loading st' = false
     ∧ ∃ e, error st' = Some e ∧ e ≠ "")
  ∧ (∀ i r m, executeTask i r = Rejected m → dispatch_executeTask st i r = st)
  ∧ (∀ i r m, deleteTask i r = Rejected m → dispatch_deleteTask st i r = st).
Proof.
  split; [|split; [|split]].
  - intros r m H. unfold dispatch_fetchTasks. rewrite H. simpl.
    split; [done|]. split; [done|]. eexists. split; [done|].
    by apply (or_default_not_empty (Some m)).
  - intros d r m H. unfold dispatch_createTask. rewrite H. simpl.
    split; [done|]. split; [done|]. eexists. split; [done|].
    by apply (or_default_not_empty (Some m)).
  - intros i r m H. unfold dispatch_executeTask. by rewrite H.
  - intros i r m H. unfold dispatch_deleteTask. by rewrite H.
Qed.

Lemma failed_requests_and_their_trace_witness :
  (∃ e, error (dispatch_fetchTasks initialState (NetworkError "")) = Some e ∧ e ≠ "")
  ∧ dispatch_executeTask initialState "t1" (Response false (Unparsable ""))
    = initialState.
Proof.
  destruct (failed_requests_and_their_trace initialState) as (Hf & _ & He & _).
  split.
  - destruct (Hf (NetworkError "") "" eq_refl) as (_ & _ & H). exact H.
  - exact (He "t1" (Response false (Unparsable "")) "Failed to execute task" eq_refl).
Defined.




(** X7: the chips tell the five statuses apart, and the three priorities:
    two statuses have the same colour only when they are the same status.
    A status string outside the five has the colour of pending. *)
Theorem colours_tell_statuses_apart (s1 s2 : TaskStatus) (p1 p2 : Priority) :
  (getStatusColor (status_name s1) = getStatusColor (status_name s2) ↔ s1 = s2)
  ∧ (getPriorityColor (priority_name p1) = getPriorityColor (priority_name p2)
     ↔ p1 = p2)
  ∧ (∀ name, (∀ s, status_name s ≠ name) →
       getStatusColor name = getStatusColor (status_name pending)).
Proof.
  split; [|split].
  - split; [|by intros ->]. by destruct s1, s2.
  - split; [|by intros ->]. by destruct p1, p2.
  - intros name H. unfold getStatusColor.
    destruct (String.eqb name "pending") eqn:E1; [done|].
    destruct (String.eqb name "running") eqn:E2;
      [apply String.eqb_eq in E2; by destruct (H running)|].
    destruct (String.eqb name "completed") eqn:E3;
      [apply String.eqb_eq in E3; by destruct (H completed)|].
    destruct (String.eqb name "failed") eqn:E4;
      [apply String.eqb_eq in E4; by destruct (H failed)|].
    destruct (String.eqb name "cancelled") eqn:E5;
      [apply String.eqb_eq in E5; by destruct (H cancelled)|].
    done.
Qed.

Lemma colours_tell_statuses_apart_witness :
  getStatusColor "decomposed" = getStatusColor (status_name pending).
Proof.
  destruct (colours_tell_statuses_apart pending pending low low) as (_ & _ & H).
  apply H. intros []; discriminate.
Defined.

End TaskSliceMore.


(** ** The agent shown for a task *)

Section AgentLabel.
Import Agents.

Lemma find_available (x : string) (before : list Agent) (a : Agent)
    (after : list Agent) :
  (∀ b, b ∈ before → id b = x → is_active b = false) →
  is_active a = true → id a = x →
  find (λ a, String.eqb (id a) x)
    (filter (λ agent, is_active agent = true) (before ++ a :: after))
  = Some a.
Proof.
  intros Hbefore Hact Hid. induction before as [|b before IH]; simpl.
  - rewrite filter_cons_True by done. simpl.
    apply String.eqb_eq in Hid. by rewrite Hid.
  - assert (find (λ a0, String.eqb (id a0) x)
              (filter (λ agent, is_active agent = true) (before ++ a :: after))
            = Some a) as IH'.
    { apply IH. intros b' Hb'. apply Hbefore. by right. }
    destruct (is_active b) eqn:Hb.
    + rewrite filter_cons_True by done. simpl.
      destruct (String.eqb (id b) x) eqn:E; [|exact IH'].
      apply String.eqb_eq in E.
      rewrite (Hbefore b (list_elem_of_here _ _) E) in Hb. discriminate.
    + rewrite filter_cons_False by (rewrite Hb; discriminate). exact IH'.
Qed.

(** X8: the chip of a task shows the name of the first active agent, in
    the order of the store, that has the identifier of the task: agents
    before it with that identifier that are not active are passed over,
    and agents after it are not looked at, whatever their names; when the
    name of that agent is empty the chip shows No Agent. So the chip
    names an agent only if the task has an agent identifier and an active
    agent with that identifier and that name is stored; a task without
    agent, or whose agents with that identifier are all inactive, shows
    No Agent. *)
Theorem agent_label_names_an_active_agent (st : AgentsState) (agent_id : option string) :
  let label := agent_label (selectAvailableAgents st) agent_id in
  (∀ x before a after,
     agent_id = Some x → agents st = before ++ a :: after →
     (∀ b, b ∈ before → id b = x → is_active b = false) →
     is_active a = true → id a = x →
     label = if String.eqb (name a) "" then "No Agent" else name a)
  ∧ (label ≠ "No Agent" →
     ∃ x a, agent_id = Some x ∧ a ∈ agents st ∧ is_active a = true
            ∧ id a = x ∧ name a = label)
  ∧ (agent_id = None → label = "No Agent")
  ∧ (∀ x, agent_id = Some x →
       (∀ a, a ∈ agents st → id a = x → is_active a = false) →
       label = "No Agent").
Proof.
  simpl. split; [|split; [|split]].
  - intros x before a after -> Hst Hbefore Hact Hid.
    unfold agent_label, selectAvailableAgents. rewrite Hst.
    by rewrite (find_available x before a after Hbefore Hact Hid).
  - unfold agent_label. destruct agent_id as [x|]; [|done].
    destruct (find _ (selectAvailableAgents st)) as [a|] eqn:Hf; [|done].
    apply find_some in Hf as [Hin Hid]. apply String.eqb_eq in Hid.
    apply list_elem_of_In, list_elem_of_filter in Hin as [Hact Hin].
    destruct (String.eqb (name a) ""); [done|]. intros _.
    by exists x, a.
  - by intros ->.
  - intros x -> Hinactive. unfold agent_label.
    destruct (find _ (selectAvailableAgents st)) as [a|] eqn:Hf; [|done].
    apply find_some in Hf as [Hin Hid]. apply String.eqb_eq in Hid.
    apply list_elem_of_In, list_elem_of_filter in Hin as [Hact Hin].
    rewrite (Hinactive a Hin Hid) in Hact. discriminate.
Qed.

Lemma agent_label_names_an_active_agent_witness :
  agent_label
    (selectAvailableAgents
       (reducer {| agents := []; currentAgent := None; loading := false;
                   error := None; availableTypes := []; availableModels := [] |}
          (fetchAgents_fulfilled [helper; first_active; second_active])))
    (Some "a1")
  = "First".
Proof.
  destruct (agent_label_names_an_active_agent
              (reducer {| agents := []; currentAgent := None; loading := false;
                          error := None; availableTypes := [];
                          availableModels := [] |}
                 (fetchAgents_fulfilled [helper; first_active; second_active]))
              (Some "a1")) as (H & _).
  apply (H "a1" [helper] first_active [second_active]); try reflexivity.
  intros b Hb _. apply list_elem_of_singleton in Hb as ->. reflexivity.
Defined.

End AgentLabel.

(** ** Further properties of the chat slice *)

Section ChatSliceMore.
Import Chat.

Lemma filter_sessions_comm (a b : string) (l : list ChatSession) :
  filter (λ x, id x ≠ a) (filter (λ x, id x ≠ b) l)
  = filter (λ x, id x ≠ b) (filter (λ x, id x ≠ a) l).
Proof. rewrite !list_filter_filter. apply list_filter_iff. intros x. tauto. Qed.

(** X9: deleting a session twice is deleting it once, and two deletions
    give the same state in either order. *)
Theorem delete_session_idempotent_and_commutes (st : ChatState) (a b : string) :
  deleteChatSession_fulfilled (deleteChatSession_fulfilled st a) a
  = deleteChatSession_fulfilled st a
  ∧ deleteChatSession_fulfilled (deleteChatSession_fulfilled st a) b
    = deleteChatSession_fulfilled (deleteChatSession_fulfilled st b) a.
Proof.
  assert (∀ l : list ChatSession,
            filter (λ x, id x ≠ a) (filter (λ x, id x ≠ a) l)
            = filter (λ x, id x ≠ a) l) as Hidem.
  { intros l. rewrite list_filter_filter. apply list_filter_iff. intros x. tauto. }
  destruct st as [ss cur ms l e str].
  unfold deleteChatSession_fulfilled, current_is. simpl. split.
  - destruct cur as [c|]; simpl.
    + destruct (String.eqb (id c) a) eqn:E; simpl; rewrite ?E; simpl; by rewrite Hidem.
    + by rewrite Hidem.
  - destruct cur as [c|]; simpl.
    + destruct (String.eqb (id c) a) eqn:Ea, (String.eqb (id c) b) eqn:Eb;
        simpl; rewrite ?Ea, ?Eb; simpl; by rewrite filter_sessions_comm.
    + by rewrite filter_sessions_comm.
Qed.

(** X10: [updateMessage] changes at most one message and keeps the
    number of messages: with no message of that identifier it changes
    nothing; otherwise the first message of that identifier takes the
    fields the updates hold and keeps its other fields, and the messages
    before and after it are untouched. Empty updates change nothing. *)
Theorem update_message_merges_first_match (ms : list ChatMessage) (i : string)
    (u : PartialMessage) :
  length (update_message ms i u) = length ms
  ∧ ((∀ m, m ∈ ms → m_id m ≠ i) → update_message ms i u = ms)
  ∧ (∀ l1 m l2, ms = l1 ++ m :: l2 → (∀ x, x ∈ l1 → m_id x ≠ i) → m_id m = i →
       update_message ms i u = l1 ++ merge_message m u :: l2)
  ∧ update_message ms i no_updates = ms.
Proof.
  split; [|split; [|split]].
  - unfold update_message. destruct (findIndex _ ms) as [k|]; [|done].
    destruct (ms !! k); [by rewrite length_insert | done].
  - intros H. unfold update_message.
    assert (findIndex (λ msg, String.eqb (m_id msg) i) ms = None) as ->; [|done].
    apply findIndex_None. intros x Hx. apply String.eqb_neq. by apply H.
  - intros l1 m l2 -> Hl1 Hm. unfold update_message.
    rewrite (findIndex_split _ l1 l2 m).
    + rewrite list_lookup_middle by done.
      clear Hl1. induction l1 as [|a l1 IH]; simpl; [done|]. by f_equal.
    + intros y Hy. apply String.eqb_neq. by apply Hl1.
    + by apply String.eqb_eq.
  - unfold update_message. destruct (findIndex _ ms) as [k|]; [|done].
    destruct (ms !! k) as [m|] eqn:Hk; [|done].
    apply list_insert_id. rewrite Hk. by destruct m.
Qed.

Lemma update_message_merges_first_match_witness :
  let m := {| m_id := "m1"; content := "hel"; role := assistant; timestamp := "t";
              session_id := "s1"; m_agent_id := None; metadata := None |} in
  let u := {| p_id := None; p_content := Some "hello"; p_role := None;
              p_timestamp := None; p_session_id := None; p_agent_id := None;
              p_metadata := None |} in
  update_message [m; m] "m1" u = [merge_message m u; m].
Proof.
  intros m u.
  destruct (update_message_merges_first_match [m; m] "m1" u) as (_ & _ & H & _).
  apply (H [] m [m]); [reflexivity | | reflexivity].
  intros x Hx. by apply elem_of_nil in Hx.
Defined.


(** X12: whatever the answer to a completion request, streaming is off
    when the request has settled, and the sessions, the current session
    and the loading flag are as before; on success the returned message
    is appended and the error is kept, on failure the messages are kept
    and a message that is never empty is recorded. *)
Theorem completion_leaves_streaming_off (st : ChatState) (message : string)
    (agent model : option string) (r : FetchResult ChatMessage) :
  let st' := dispatch_generateChatCompletion st message agent model r in
  isStreaming st' = false
  ∧ sessions st' = sessions st
  ∧ currentSession st' = currentSession st
  ∧ loading st' = loading st
  ∧ match generateChatCompletion message agent model r with
    | Fulfilled p => messages st' = messages st ++ [p] ∧ error st' = error st
    | Rejected m =>
        messages st' = messages st ∧ ∃ e, error st' = Some e ∧ e ≠ ""
    end.
Proof.
  unfold dispatch_generateChatCompletion.
  destruct (generateChatCompletion message agent model r) as [p|m]; simpl.
  - done.
  - repeat split. eexists. split; [done|].
    unfold or_default. destruct (String.eqb m "") eqn:E; [done|].
    by apply String.eqb_neq.
Qed.

End ChatSliceMore.




Section RegistryMore.
Import WebSocketService Registry.

Lemma fresh_array_unused (s : Service) (event : string) :
  well_formed s → eventHandlers s !! event ≠ Some (fresh (dom (arrays s))).
Proof.
  intros Hwf H. apply Hwf in H. apply elem_of_dom in H.
  by apply is_fresh in H.
Qed.

Lemma separated_empty : separated empty.
Proof.
  split; [apply well_formed_empty|]. intros e1 e2 r H. simpl in H.
  by rewrite lookup_empty in H.
Qed.

Lemma separated_on (event : string) (h : Handler) (s : Service) :
  separated s → separated (on event h s).
Proof.
  intros [Hwf Hinj]. split; [by apply well_formed_on|].
  intros e1 e2 r. unfold on.
  destruct (eventHandlers s !! event) as [r0|] eqn:He; simpl.
  - rewrite insert_id by done. apply Hinj.
  - intros H1 H2.
    destruct (decide (event = e1)) as [<-|N1], (decide (event = e2)) as [<-|N2];
      try done.
    + rewrite lookup_insert_eq in H1. rewrite lookup_insert_ne in H2 by done.
      injection H1 as <-. by destruct (fresh_array_unused s e2 Hwf).
    + rewrite lookup_insert_eq in H2. rewrite lookup_insert_ne in H1 by done.
      injection H2 as <-. by destruct (fresh_array_unused s e1 Hwf).
    + rewrite lookup_insert_ne in H1, H2 by done. by apply (Hinj e1 e2 r).
Qed.

Lemma separated_off (event : string) (handler : option Handler) (s : Service) :
  separated s → separated (off event handler s).
Proof.
  intros [Hwf Hinj]. split; [by apply well_formed_off|].
  intros e1 e2 r. unfold off. destruct handler as [h|]; simpl.
  - destruct (eventHandlers s !! event) as [r0|] eqn:He; [|apply Hinj].
    destruct (indexOf h (array_of s r0)); [|apply Hinj]. simpl.
    rewrite insert_id by done. apply Hinj.
  - intros H1 H2. apply lookup_delete_Some in H1 as [_ H1].
    apply lookup_delete_Some in H2 as [_ H2]. by apply (Hinj e1 e2 r).
Qed.

Lemma built_separated (s : Service) : built s → separated s.
Proof.
  induction 1; [apply separated_empty | by apply separated_on | by apply separated_off].
Qed.

(** What [on] does to the handlers of every event. *)
Lemma handlers_of_on (event event' : string) (h : Handler) (s : Service) :
  separated s →
  handlers_of (on event h s) event'
  = if String.eqb event event' then handlers_of s event ++ [h]
    else handlers_of s event'.
Proof.
  intros [Hwf Hinj]. destruct (String.eqb event event') eqn:E.
  - apply String.eqb_eq in E as <-. by apply on_appends.
  - apply String.eqb_neq in E. unfold on, handlers_of.
    destruct (eventHandlers s !! event) as [r|] eqn:He; simpl.
    + rewrite lookup_insert_ne by done.
      destruct (eventHandlers s !! event') as [r'|] eqn:He'; [|done].
      unfold array_of. simpl. rewrite lookup_alter_ne; [done|].
      intros ->. by destruct E; apply (Hinj event event' r').
    + rewrite lookup_insert_ne by done.
      destruct (eventHandlers s !! event') as [r'|] eqn:He'; [|done].
      unfold array_of. simpl. rewrite lookup_insert_ne; [done|].
      intros Hr. apply (fresh_array_unused s event' Hwf). by rewrite He', Hr.
Qed.

(** What [off] with a handler does to the handlers of every event. *)
Lemma handlers_of_off (event event' : string) (h : Handler) (s : Service) :
  separated s →
  handlers_of (off event (Some h) s) event'
  = if String.eqb event event' then remove_first h (handlers_of s event)
    else handlers_of s event'.
Proof.
  intros [Hwf Hinj]. unfold off, remove_first, handlers_of at 2.
  destruct (eventHandlers s !! event) as [r|] eqn:He.
  - destruct (indexOf h (array_of s r)) as [i|] eqn:Hi.
    + unfold handlers_of. simpl.
      destruct (String.eqb event event') eqn:E.
      * apply String.eqb_eq in E as <-. rewrite lookup_insert_eq.
        unfold array_of. simpl. rewrite lookup_alter_eq, He.
        destruct (arrays s !! r) as [l|] eqn:Hl; [done|].
        unfold array_of in Hi. rewrite Hl in Hi. discriminate Hi.
      * apply String.eqb_neq in E. rewrite lookup_insert_ne by done.
        destruct (eventHandlers s !! event') as [r'|] eqn:He'; [|done].
        unfold array_of. simpl. rewrite lookup_alter_ne; [done|].
        intros ->. by destruct E; apply (Hinj event event' r').
    + destruct (String.eqb event event') eqn:E; [|done].
      apply String.eqb_eq in E as <-. unfold handlers_of. by rewrite He.
  - destruct (String.eqb event event') eqn:E; [|done].
    apply String.eqb_eq in E as <-. unfold handlers_of. by rewrite He.
Qed.

Lemma handlers_of_off_all (event event' : string) (s : Service) :
  handlers_of (off event None s) event'
  = if String.eqb event event' then [] else handlers_of s event'.
Proof.
  unfold off, handlers_of. simpl. destruct (String.eqb event event') eqn:E.
  - apply String.eqb_eq in E as <-. by rewrite lookup_delete_eq.
  - apply String.eqb_neq in E. by rewrite lookup_delete_ne.
Qed.

Lemma remove_first_snoc (h : Handler) (l : list Handler) :
  h ∉ l → remove_first h (l ++ [h]) = l.
Proof.
  intros Hl. unfold remove_first, indexOf.
  rewrite (findIndex_split _ l [] h).
  - induction l as [|a l IH]; simpl; [done|]. f_equal. apply IH.
    intros H. apply Hl. by right.
  - intros y Hy. apply Nat.eqb_neq. intros ->. by apply Hl.
  - apply Nat.eqb_refl.
Qed.

(** X13: registering a handler that is not yet registered for the event
    and removing it again gives back, for every event, the handlers there
    were, in their order. When the handler was registered already, it is
    the earlier registration that is removed. *)
Theorem off_undoes_on (s : Service) (event : string) (h : Handler) :
  built s →
  (h ∉ handlers_of s event →
     ∀ event', handlers_of (off event (Some h) (on event h s)) event'
               = handlers_of s event')
  ∧ handlers_of (off event (Some h) (on event h s)) event
    = remove_first h (handlers_of s event ++ [h]).
Proof.
  intros Hb. pose proof (built_separated s Hb) as Hs.
  pose proof (separated_on event h s Hs) as Hs'. split.
  - intros Hh event'. rewrite handlers_of_off, !handlers_of_on by done.
    destruct (String.eqb event event') eqn:E; [|done].
    rewrite String.eqb_refl. apply String.eqb_eq in E as <-.
    by apply remove_first_snoc.
  - by rewrite handlers_of_off, handlers_of_on, !String.eqb_refl.
Qed.

Lemma off_undoes_on_witness :
  handlers_of (off "message" (Some 4) (on "message" 4 (on "message" 9 empty)))
    "message" = [9].
Proof.
  destruct (off_undoes_on (on "message" 9 empty) "message" 4) as [H _].
  - apply built_on, built_empty.
  - rewrite H; [reflexivity|]. vm_compute. intros Hin.
    apply list_elem_of_singleton in Hin. discriminate.
Defined.

(** X14: [off] without a handler removes every handler of the event:
    nothing is invoked when the event is emitted afterwards, a handler
    registered afterwards is the only one, and the handlers of the other
    events are untouched. *)
Theorem off_without_handler_clears_the_event
    (behaviour : Handler → any → Service → Service * Completion)
    (s : Service) (event : string) (data : any) (h : Handler) :
  handlers_of (off event None s) event = []
  ∧ invoked (emit behaviour event data (off event None s)) = []
  ∧ (emit behaviour event data (off event None s)).1.(service) = off event None s
  ∧ handlers_of (on event h (off event None s)) event = [h]
  ∧ (∀ event', event' ≠ event →
       handlers_of (off event None s) event' = handlers_of s event').
Proof.
  split; [|split; [|split; [|split]]].
  - by rewrite handlers_of_off_all, String.eqb_refl.
  - unfold emit, invoked. simpl. by rewrite lookup_delete_eq.
  - unfold emit. simpl. by rewrite lookup_delete_eq.
  - unfold on, handlers_of. simpl. rewrite lookup_delete_eq. simpl.
    rewrite lookup_insert_eq. unfold array_of. simpl. by rewrite lookup_insert_eq.
  - intros event' Hne. rewrite handlers_of_off_all.
    destruct (String.eqb event event') eqn:E; [|done].
    apply String.eqb_eq in E. congruence.
Qed.

Lemma off_without_handler_clears_the_event_witness :
  handlers_of (off "error" None (on "message" 9 empty)) "message"
  = handlers_of (on "message" 9 empty) "message".
Proof.
  destruct (off_without_handler_clears_the_event failing_behaviour
              (on "message" 9 empty) "error" null 0) as (_ & _ & _ & _ & H).
  apply H. discriminate.
Defined.

(** X15: in every service that [on] and [off] make of the empty one,
    events do not share handler lists: registering or removing a handler
    for one event leaves the handlers of every other event as they
    were. *)
Theorem events_are_independent (s : Service) (event event' : string) (h : Handler)
    (handler : option Handler) :
  built s →
  event ≠ event' →
  handlers_of (on event h s) event' = handlers_of s event'
  ∧ handlers_of (off event handler s) event' = handlers_of s event'.
Proof.
  intros Hb Hne. pose proof (built_separated s Hb) as Hs.
  apply String.eqb_neq in Hne. split.
  - by rewrite handlers_of_on, Hne.
  - destruct handler as [h'|].
    + by rewrite handlers_of_off, Hne.
    + by rewrite handlers_of_off_all, Hne.
Qed.

Lemma events_are_independent_witness :
  handlers_of (on "error" 3 (on "message" 9 empty)) "message"
  = handlers_of (on "message" 9 empty) "message".
Proof.
  destruct (events_are_independent (on "message" 9 empty) "error" "message" 3 None)
    as [H _].
  - apply built_on, built_empty.
  - discriminate.
  - exact H.
Defined.

End RegistryMore.


(** ** The provider and the registry *)

Section ContextRegistry.
Import WebSocketService Registry WebSocketContext.

#[local] Arguments off : simpl never.
#[local] Arguments on : simpl never.

Lemma handlers_of_on_same (event : string) (h : Handler) (s : Service) :
  built s → handlers_of (on event h s) event = handlers_of s event ++ [h].
Proof.
  intros Hb. rewrite handlers_of_on by (by apply built_separated).
  by rewrite String.eqb_refl.
Qed.

Lemma handlers_of_on_other (event event' : string) (h : Handler) (s : Service) :
  built s → event ≠ event' → handlers_of (on event h s) event' = handlers_of s event'.
Proof.
  intros Hb Hne. rewrite handlers_of_on by (by apply built_separated).
  apply String.eqb_neq in Hne. by rewrite Hne.
Qed.

Lemma handlers_of_off_same (event : string) (h : Handler) (s : Service) :
  built s →
  handlers_of (off event (Some h) s) event = remove_first h (handlers_of s event).
Proof.
  intros Hb. rewrite handlers_of_off by (by apply built_separated).
  by rewrite String.eqb_refl.
Qed.

Lemma handlers_of_off_other (event event' : string) (h : Handler) (s : Service) :
  built s → event ≠ event' →
  handlers_of (off event (Some h) s) event' = handlers_of s event'.
Proof.
  intros Hb Hne. rewrite handlers_of_off by (by apply built_separated).
  apply String.eqb_neq in Hne. by rewrite Hne.
Qed.

(** Side conditions: the service is built, the two events differ. *)
Ltac side :=
  first [ discriminate
        | repeat first [apply built_on | apply built_off]; assumption ].

Ltac read_handlers :=
  repeat first
    [ rewrite handlers_of_on_same by side
    | rewrite handlers_of_on_other by side
    | rewrite handlers_of_off_same by side
    | rewrite handlers_of_off_other by side ].

Lemma built_mount (base : nat) (s : Service) : built s → built (mount base s).
Proof. intros Hb. unfold mount, register_all. simpl. side. Qed.

Lemma built_cleanup (base : nat) (s : Service) : built s → built (cleanup base s).
Proof. intros Hb. unfold cleanup. simpl. side. Qed.

(** One run of the effect: one more handler for each of its events. *)
Lemma handlers_of_mount (base : nat) (s : Service) (k : nat) (event : string) :
  built s →
  (named_events ++ anonymous_events) !! k = Some event →
  handlers_of (mount base s) event = handlers_of s event ++ [base + k].
Proof.
  intros Hb Hk. unfold mount, register_all. simpl in *.
  do 13 (destruct k as [|k];
         [injection Hk as <-; read_handlers; reflexivity | simpl in Hk]).
  discriminate Hk.
Qed.

Lemma handlers_of_mount_other (base : nat) (s : Service) (event : string) :
  built s →
  event ∉ named_events ++ anonymous_events →
  handlers_of (mount base s) event = handlers_of s event.
Proof.
  intros Hb Hnot. unfold mount, register_all. simpl in *.
  repeat (rewrite handlers_of_on_other;
          [ | side | intros <-; apply Hnot; set_solver ]).
  reflexivity.
Qed.

Ltac read_mount base s Hb :=
  first
    [ rewrite (handlers_of_mount base s 0 _ Hb eq_refl)
    | rewrite (handlers_of_mount base s 1 _ Hb eq_refl)
    | rewrite (handlers_of_mount base s 2 _ Hb eq_refl)
    | rewrite (handlers_of_mount base s 3 _ Hb eq_refl)
    | rewrite (handlers_of_mount base s 4 _ Hb eq_refl)
    | rewrite (handlers_of_mount base s 5 _ Hb eq_refl)
    | rewrite (handlers_of_mount base s 6 _ Hb eq_refl)
    | rewrite (handlers_of_mount base s 7 _ Hb eq_refl)
    | rewrite (handlers_of_mount base s 8 _ Hb eq_refl)
    | rewrite (handlers_of_mount base s 9 _ Hb eq_refl)
    | rewrite (handlers_of_mount base s 10 _ Hb eq_refl)
    | rewrite (handlers_of_mount base s 11 _ Hb eq_refl)
    | rewrite (handlers_of_mount base s 12 _ Hb eq_refl) ].

(** A string that is none of the strings of a list. *)
Ltac not_listed :=
  let H := fresh in
  simpl; intros H;
  repeat (apply elem_of_cons in H as [H|H]; [discriminate H|]);
  by apply elem_of_nil in H.

(** A run and its cleanup: the five named events are as before, each of
    the eight others has one handler more. *)
Lemma handlers_after_cycle (base : nat) (s : Service) :
  built s →
  (∀ k event, named_events !! k = Some event →
     base + k ∉ handlers_of s event →
     handlers_of (cleanup base (mount base s)) event = handlers_of s event)
  ∧ (∀ k event, anonymous_events !! k = Some event →
     handlers_of (cleanup base (mount base s)) event
     = handlers_of s event ++ [base + (5 + k)]).
Proof.
  intros Hb. pose proof (built_mount base s Hb) as Hm. split.
  - intros k event Hk Hfresh. unfold cleanup. simpl in *.
    do 5 (destruct k as [|k];
          [ injection Hk as <-; read_handlers; read_mount base s Hb;
            apply remove_first_snoc; exact Hfresh
          | simpl in Hk ]).
    discriminate Hk.
  - intros k event Hk. unfold cleanup. simpl in *.
    do 8 (destruct k as [|k];
          [ injection Hk as <-; read_handlers; read_mount base s Hb; reflexivity
          | simpl in Hk ]).
    discriminate Hk.
Qed.

Lemma built_remounted (n : nat) : built (remounted n).
Proof.
  unfold remounted. induction n as [|n IH]; [apply built_empty|].
  rewrite seq_S, foldl_snoc. simpl. by apply built_cleanup, built_mount.
Qed.

(** X16: the cleanup of the effect removes the five named handlers only.
    After [n] runs of the effect, each followed by its cleanup, the events
    connect, disconnect, reconnect, error and message have no handler,
    and each of the eight other events still has the [n] handlers the
    runs registered, one for each run, in the order of the runs. *)
Theorem cleanup_leaves_anonymous_handlers (n : nat) :
  (∀ event, event ∈ named_events → handlers_of (remounted n) event = [])
  ∧ (∀ k event, anonymous_events !! k = Some event →
       handlers_of (remounted n) event = (λ i, 13 * i + (5 + k)) <$> seq 0 n).
Proof.
  induction n as [|n [IHnamed IHanon]].
  - split; [|done]. intros event _. unfold remounted, handlers_of. simpl.
    by rewrite lookup_empty.
  - assert (remounted (S n) = cleanup (13 * n) (mount (13 * n) (remounted n))) as ->.
    { unfold remounted. by rewrite seq_S, foldl_snoc. }
    destruct (handlers_after_cycle (13 * n) (remounted n) (built_remounted n))
      as [Hnamed Hanon].
    split.
    + intros event Hin. apply list_elem_of_lookup in Hin as [k Hk].
      rewrite (Hnamed k event Hk).
      * apply IHnamed. apply list_elem_of_lookup. eauto.
      * rewrite IHnamed; [apply not_elem_of_nil|]. apply list_elem_of_lookup. eauto.
    + intros k event Hk. rewrite (Hanon k event Hk), (IHanon k event Hk).
      by rewrite seq_S, fmap_app.
Qed.

Lemma cleanup_leaves_anonymous_handlers_witness :
  handlers_of (remounted 2) "connect" = []
  ∧ handlers_of (remounted 2) "task_completed" = [7; 20].
Proof.
  destruct (cleanup_leaves_anonymous_handlers 2) as [Hnamed Hanon]. split.
  - apply Hnamed. apply elem_of_cons. by left.
  - exact (Hanon 2 "task_completed" eq_refl).
Defined.

(** When the handlers leave the service alone, [emit] invokes the
    handlers of the event. *)
Lemma emit_quiet (event : string) (data : any) (s : Service) :
  invoked (emit quiet event data s) = handlers_of s event.
Proof.
  apply (emit_stable _ _ _ _ (λ s', s' = s)).
  - done.
  - intros s' r -> Hr. exists []. unfold handlers_of. by rewrite Hr, app_nil_r.
  - by intros h s' _ ->.
Qed.

Lemma deliver_to_own_handler (base : nat) (now event : string) (data : any)
    (s : Service) (cs : ContextState) (k : nat) :
  handlers_of s event = [base + k] → k < 13 →
  deliver base now event data s cs = run_handler k data now cs.
Proof.
  intros Hh Hk. unfold deliver. rewrite emit_quiet, Hh. simpl.
  assert ((base <=? base + k) && (base + k <? base + 13) = true) as ->.
  { apply andb_true_iff. split; [apply Nat.leb_le | apply Nat.ltb_lt]; lia. }
  by replace (base + k - base) with k by lia.
Qed.

Lemma deliver_to_nobody (base : nat) (now event : string) (data : any)
    (s : Service) (cs : ContextState) :
  handlers_of s event = [] → deliver base now event data s cs = cs.
Proof. intros Hh. unfold deliver. by rewrite emit_quiet, Hh. Qed.

Lemma handlers_of_mounted (base k : nat) (event : string) :
  (named_events ++ anonymous_events) !! k = Some event →
  handlers_of (mount base empty) event = [base + k].
Proof.
  intros Hk. by rewrite (handlers_of_mount base empty k event built_empty Hk).
Qed.

(** X17: the state of the provider after an event of the socket, once
    the effect has run on a new service. The connect event of the socket
    is not passed on, so connecting leaves the provider as it was (not
    connected when it has just been mounted); disconnect and reconnect
    set the flag and the state string; an error sets the state string to
    error and keeps the flag; a packet named by one of the eight typed
    events, or message, becomes the last message with that type, its
    data and the time stamp; an event without handler (reconnect_failed,
    reconnect_error, any other packet) changes nothing. *)
Theorem provider_follows_socket_events (base : nat) (now : string) (cs : ContextState) :
  let s := mount base empty in
  on_socket_event base now WebSocketClient.s_connect s cs = cs
  ∧ on_socket_event base now WebSocketClient.s_connect s initialContext = initialContext
  ∧ on_socket_event base now WebSocketClient.s_disconnect s cs
    = {| isConnected := false; connectionState := "disconnected";
         lastMessage := lastMessage cs |}
  ∧ (∀ n, on_socket_event base now (WebSocketClient.s_reconnect n) s cs
          = {| isConnected := true; connectionState := "connected";
               lastMessage := lastMessage cs |})
  ∧ (∀ e, on_socket_event base now (WebSocketClient.s_error e) s cs
          = {| isConnected := isConnected cs; connectionState := "error";
               lastMessage := lastMessage cs |})
  ∧ (∀ event d, event ∈ "message" :: anonymous_events →
       on_socket_event base now (WebSocketClient.s_packet event d) s cs
       = {| isConnected := isConnected cs; connectionState := connectionState cs;
            lastMessage := Some {| type := event; data := d; timestamp := now |} |})
  ∧ (∀ event d, event ∉ named_events ++ anonymous_events →
       on_socket_event base now (WebSocketClient.s_packet event d) s cs = cs)
  ∧ (∀ e, on_socket_event base now (WebSocketClient.s_reconnect_error e) s cs = cs)
  ∧ on_socket_event base now WebSocketClient.s_reconnect_failed s cs = cs.
Proof.
  intros s. subst s. unfold on_socket_event. simpl.
  assert (∀ event d, event ∉ named_events ++ anonymous_events →
            deliver base now event d (mount base empty) cs = cs) as Hnone.
  { intros event d Hnot. apply deliver_to_nobody.
    by rewrite handlers_of_mount_other by (done || apply built_empty). }
  split; [done|]. split; [done|]. split; [|split; [|split; [|split; [|split; [|split]]]]].
  - by rewrite (deliver_to_own_handler _ _ _ _ _ _ 1 (handlers_of_mounted base 1 _ eq_refl))
      by lia.
  - intros n.
    by rewrite (deliver_to_own_handler _ _ _ _ _ _ 2 (handlers_of_mounted base 2 _ eq_refl))
      by lia.
  - intros e.
    by rewrite (deliver_to_own_handler _ _ _ _ _ _ 3 (handlers_of_mounted base 3 _ eq_refl))
      by lia.
  - intros event d Hin.
    assert (∃ k, 4 ≤ k < 13 ∧ (named_events ++ anonymous_events) !! k = Some event)
      as (k & Hk & Hev).
    { apply list_elem_of_lookup in Hin as [j Hj]. exists (4 + j). split.
      - apply lookup_lt_Some in Hj. simpl in Hj. lia.
      - exact Hj. }
    rewrite (deliver_to_own_handler _ _ _ _ _ _ k (handlers_of_mounted base k _ Hev))
      by lia.
    unfold run_handler. rewrite Hev.
    do 4 (destruct k as [|k]; [lia|]). done.
  - exact Hnone.
  - intros e. apply Hnone. not_listed.
  - apply Hnone. not_listed.
Qed.

Lemma provider_follows_socket_events_witness :
  on_socket_event 0 "2024-01-01T00:00:00.000Z"
    (WebSocketClient.s_packet "task_completed" (text "t1"))
    (mount 0 empty) initialContext
  = {| isConnected := false; connectionState := "disconnected";
       lastMessage := Some {| type := "task_completed"; data := text "t1";
                              timestamp := "2024-01-01T00:00:00.000Z" |} |}.
Proof.
  destruct (provider_follows_socket_events 0 "2024-01-01T00:00:00.000Z" initialContext)
    as (_ & _ & _ & _ & _ & H & _).
  apply H. set_solver.
Defined.

End ContextRegistry.




(** ** The socket side of the service *)

Section SocketSide.
Import WebSocketService WebSocketClient.

Lemma send_keeps (event : string) (data : JsObject) (c : Client) :
  registry (send event data c) = registry c
  ∧ config_token (send event data c) = config_token c
  ∧ isConnected (send event data c) = isConnected c.
Proof.
  unfold send, isConnected. destruct (socket c) as [sk|]; [|done].
  by destruct (connected sk) eqn:E.
Qed.

(** X18: messages are handed to the socket only while it is connected,
    and are not kept for later otherwise. A sequence of sends on a
    connected service appends the messages, in order, to what the socket
    was given, without warning; on a service that is not connected (no
    socket, or a socket that is not connected) the socket is left as it
    is and one warning is written for each message. Sending never
    changes the handler registry, and after [disconnect] the service is
    not connected. *)
Theorem sends_need_a_connected_socket (c : Client) (ms : list (string * JsObject)) :
  let c' := sends c ms in
  registry c' = registry c
  ∧ isConnected c' = isConnected c
  ∧ (if isConnected c
     then warnings c' = warnings c
          ∧ outbox <$> socket c' = (λ sk, outbox sk ++ ms) <$> socket c
     else socket c' = socket c
          ∧ length (warnings c') = length (warnings c) + length ms)
  ∧ isConnected (disconnect c') = false
  ∧ registry (disconnect c') = registry c
  ∧ (getConnectionState c = "connected" ↔ isConnected c = true).
Proof.
  simpl. unfold sends.
  assert (registry (foldl (λ c m, send m.1 m.2 c) c ms) = registry c
          ∧ isConnected (foldl (λ c m, send m.1 m.2 c) c ms) = isConnected c
          ∧ (if isConnected c
             then warnings (foldl (λ c m, send m.1 m.2 c) c ms) = warnings c
                  ∧ outbox <$> socket (foldl (λ c m, send m.1 m.2 c) c ms)
                    = (λ sk, outbox sk ++ ms) <$> socket c
             else socket (foldl (λ c m, send m.1 m.2 c) c ms) = socket c
                  ∧ length (warnings (foldl (λ c m, send m.1 m.2 c) c ms))
                    = length (warnings c) + length ms)) as (Hr & Hc & Hs).
  { revert c. induction ms as [|[e d] ms IH]; intros c; simpl.
    - split; [done|]. split; [done|].
      destruct (isConnected c) eqn:E; [|split; [done | lia]].
      split; [done|]. unfold isConnected in E.
      destruct (socket c) as [sk|]; [|done]. simpl. by rewrite app_nil_r.
    - destruct (IH (send e d c)) as (Hr & Hc & Hs).
      destruct (send_keeps e d c) as (Hr' & _ & Hc').
      split; [by rewrite Hr|]. split; [by rewrite Hc|].
      rewrite Hc' in Hs. destruct (isConnected c) eqn:E.
      + destruct Hs as [Hw Ho]. rewrite Hw, Ho.
        unfold send, isConnected in *. destruct (socket c) as [sk|]; [|done].
        rewrite E. simpl. split; [done|]. by rewrite <- (assoc_L (++)).
      + destruct Hs as [Hsk Hw]. rewrite Hsk, Hw.
        unfold send, isConnected in *. destruct (socket c) as [sk|].
        * rewrite E. simpl. split; [done|]. rewrite length_app. simpl. lia.
        * simpl. split; [done|]. rewrite length_app. simpl. lia. }
  split; [done|]. split; [done|]. split; [done|]. split; [done|]. split; [done|].
  unfold getConnectionState, isConnected. destruct (socket c) as [sk|]; [|done].
  by destruct (connected sk).
Qed.

End SocketSide.

(** ** The HTTP client *)

Section HttpClient.
Import ApiService.

Lemma call_browser (b : Browser) (method url : string) (reply : Reply) :
  (call b method url reply).1.1
  = if unauthorized reply then {| token := None; href := "/login" |} else b.
Proof.
  unfold call, unauthorized. destruct reply as [status data|m]; [|done].
  destruct (resolves status) eqn:E; [|done]. simpl.
  assert (Nat.eqb status 401 = false) as ->; [|done].
  apply Nat.eqb_neq. intros ->. discriminate E.
Qed.

(** X19: a reply with status 401 logs the user out for good: as soon as
    one call of a sequence is answered with 401, the token is gone and
    the page is the login page after the sequence, and the requests that
    follow carry no Authorization header; when none is answered with 401
    the token and the page are untouched, whatever else the replies
    are. *)
Theorem unauthorized_reply_removes_the_token (b : Browser)
    (calls : list (string * string * Reply)) :
  let b' := session b calls in
  if existsb (λ c, unauthorized c.2) calls
  then token b' = None ∧ href b' = "/login"
       ∧ ∀ method url, authorization (request_interceptor b' method url) = None
  else b' = b.
Proof.
  simpl. unfold session. revert b.
  induction calls as [|[[m u] reply] calls IH]; intros b; simpl; [done|].
  rewrite call_browser. specialize (IH (if unauthorized reply
                                        then {| token := None; href := "/login" |}
                                        else b)).
  destruct (unauthorized reply); simpl.
  - destruct (existsb _ calls); [done|]. rewrite IH. done.
  - exact IH.
Qed.

(** X20: a request carries the Authorization header exactly when a token
    that is not empty is stored, and the header is Bearer followed by
    the token. [getTask], [executeTask], [getTaskSubtasks] and
    [cancelTask] return the data of the response exactly when its status
    is from 200 to 299; [deleteTask] returns undefined exactly then and
    never returns the data of the response. Each of the five rejects with
    the status of the response exactly when it is outside 200 to 299,
    leaves the token and the page as they are when it is inside, and sends
    its own method and path through the request interceptor. *)
Theorem requests_and_replies (b : Browser) (id : string) (status : nat) (data : any) :
  (∀ method url,
     (authorization (request_interceptor b method url) = None
      ↔ token b = None ∨ token b = Some "")
     ∧ (∀ t, token b = Some t → t ≠ "" →
          authorization (request_interceptor b method url) = Some ("Bearer " +:+ t)))
  ∧ (∀ endpoint, endpoint ∈ data_endpoints →
       ((endpoint b id (Answer status data)).2 = Returns data ↔ 200 ≤ status ≤ 299)
       ∧ ((endpoint b id (Answer status data)).2 = Rejects (Some status)
          ↔ ¬ 200 ≤ status ≤ 299)
       ∧ (200 ≤ status ≤ 299 → (endpoint b id (Answer status data)).1.1 = b))
  ∧ ((deleteTask b id (Answer status data)).2 = ReturnsUndefined ↔ 200 ≤ status ≤ 299)
  ∧ ((deleteTask b id (Answer status data)).2 = Rejects (Some status)
     ↔ ¬ 200 ≤ status ≤ 299)
  ∧ (∀ d, (deleteTask b id (Answer status data)).2 ≠ Returns d)
  ∧ (200 ≤ status ≤ 299 → (deleteTask b id (Answer status data)).1.1 = b)
  ∧ (getTask b id (Answer status data)).1.2
    = request_interceptor b "GET" ("/api/v1/tasks/" +:+ id)
  ∧ (deleteTask b id (Answer status data)).1.2
    = request_interceptor b "DELETE" ("/api/v1/tasks/" +:+ id)
  ∧ (executeTask b id (Answer status data)).1.2
    = request_interceptor b "POST" ("/api/v1/tasks/" +:+ id +:+ "/execute")
  ∧ (getTaskSubtasks b id (Answer status data)).1.2
    = request_interceptor b "GET" ("/api/v1/tasks/" +:+ id +:+ "/subtasks")
  ∧ (cancelTask b id (Answer status data)).1.2
    = request_interceptor b "POST" ("/api/v1/tasks/" +:+ id +:+ "/cancel").
Proof.
  assert (resolves status = true ↔ 200 ≤ status ≤ 299) as Hres.
  { unfold resolves. rewrite andb_true_iff, Nat.leb_le, Nat.ltb_lt. lia. }
  assert (∀ method url,
            (return_data (call b method url (Answer status data))).2 = Returns data
            ↔ 200 ≤ status ≤ 299) as Hdata.
  { intros method url. unfold return_data, call.
    destruct (resolves status) eqn:E; simpl.
    - split; [intros _; by apply Hres | done].
    - split; [discriminate|]. intros H. apply Hres in H. congruence. }
  assert (∀ method url,
            (return_data (call b method url (Answer status data))).2
            = Rejects (Some status) ↔ ¬ 200 ≤ status ≤ 299) as Hrej.
  { intros method url. unfold return_data, call.
    destruct (resolves status) eqn:E; simpl.
    - split; [discriminate|]. intros H. destruct H. by apply Hres.
    - split; [|done]. intros _ H. apply Hres in H. congruence. }
  assert (∀ method url, 200 ≤ status ≤ 299 →
            (return_data (call b method url (Answer status data))).1.1 = b) as Hsame.
  { intros method url H. apply Hres in H. unfold return_data, call. by rewrite H. }
  split; [|split; [|split; [|split; [|split; [|split]]]]].
  - intros method url. split.
    + unfold request_interceptor. simpl. destruct (token b) as [t|]; [|tauto].
      destruct (String.eqb t "") eqn:E.
      * apply String.eqb_eq in E as ->. tauto.
      * apply String.eqb_neq in E. split; [done|]. intros [H|H]; congruence.
    + intros t Ht Hne. unfold request_interceptor. simpl. rewrite Ht.
      apply String.eqb_neq in Hne. by rewrite Hne.
  - intros endpoint Hin. unfold data_endpoints in Hin.
    repeat (apply elem_of_cons in Hin as [->|Hin]);
      [| | | |by apply elem_of_nil in Hin];
      (split; [apply Hdata|]; split; [apply Hrej | apply Hsame]).
  - unfold deleteTask, return_nothing, call.
    destruct (resolves status) eqn:E; simpl.
    + split; [intros _; by apply Hres | done].
    + split; [discriminate|]. intros H. apply Hres in H. congruence.
  - unfold deleteTask, return_nothing, call.
    destruct (resolves status) eqn:E; simpl.
    + split; [discriminate|]. intros H. destruct H. by apply Hres.
    + split; [|done]. intros _ H. apply Hres in H. congruence.
  - intros d. unfold deleteTask, return_nothing, call.
    by destruct (resolves status).
  - intros H. apply Hres in H. unfold deleteTask, return_nothing, call. by rewrite H.
  - unfold getTask, deleteTask, executeTask, getTaskSubtasks, cancelTask,
      return_data, return_nothing, call.
    by destruct (resolves status).
Qed.

Lemma requests_and_replies_witness :
  (deleteTask {| token := Some "abc"; href := "/" |} "t1" (Answer 204 (text "gone"))).2
  = ReturnsUndefined
  ∧ (getTask {| token := Some "abc"; href := "/" |} "t1" (Answer 200 (text "task"))).2
    = Returns (text "task")
  ∧ authorization (getTask {| token := Some "abc"; href := "/" |} "t1"
                     (Answer 200 (text "task"))).1.2
    = Some "Bearer abc".
Proof.
  split; [|split].
  - destruct (requests_and_replies {| token := Some "abc"; href := "/" |}
                "t1" 204 (text "gone")) as (_ & _ & H & _).
    apply H. lia.
  - destruct (requests_and_replies {| token := Some "abc"; href := "/" |}
                "t1" 200 (text "task")) as (_ & H & _).
    apply (H getTask); [unfold data_endpoints; constructor | lia].
  - destruct (requests_and_replies {| token := Some "abc"; href := "/" |}
                "t1" 200 (text "task")) as (H & _ & _ & _ & _ & _ & -> & _).
    apply (proj2 (H "GET" ("/api/v1/tasks/" +:+ "t1")) "abc");
      [reflexivity | discriminate].
Defined.

End HttpClient.
